(** * rackmon2: register data model and Modbus command codec

    A shallow embedding of [regmap.hpp] (Register, RegisterStore) and of
    [modbus_cmds.cpp] (the four Modbus request/response pairs), with the
    properties of the written specification stated over it.

    Conventions.  Fixed-width integers are [Z] with the wrap-around written
    out ([uint8], [uint16], [uint32], [int32], [size_t]).  Bytes of a frame
    are [Byte.byte].  A [std::vector] is a [list]; indexing out of range,
    which C++ leaves undefined, is [None].  Exceptions are the left summand
    of a state-and-error monad, so the object a method threw on can still be
    inspected. *)

From Stdlib Require Import ZArith String Lia.
From Stdlib.Strings Require Import Byte.
From stdpp Require Import base list.

Open Scope Z_scope.

(** ** Fixed-width integers *)

Definition uint8 (z : Z) : Z := z mod 2 ^ 8.
Definition uint16 (z : Z) : Z := z mod 2 ^ 16.
Definition uint32 (z : Z) : Z := z mod 2 ^ 32.
Definition size_t (z : Z) : Z := z mod 2 ^ 64.
Definition int32 (z : Z) : Z := (z + 2 ^ 31) mod 2 ^ 32 - 2 ^ 31.

(** [v[i]] for a signed index: out of range is undefined in C++, [None] here. *)
Definition vec_at {A} (v : list A) (i : Z) : option A :=
  if i <? 0 then None else v !! Z.to_nat i.

(** ** regmap.hpp *)

Inductive RegisterValueType := HEX | STRING | INTEGER | FLOAT | FLAGS.

Module RegisterDescriptor.
Record t := mk {
  begin : Z;                      (* uint16_t *)
  length : Z;                     (* uint16_t *)
  name : string;
  keep : Z;                       (* uint16_t, default 1 *)
  changes_only : bool;
  format : RegisterValueType;
  precision : Z;                  (* uint16_t *)
  flags : list (Z * string)
}.
End RegisterDescriptor.

Module Register.
Record t := mk {
  desc : RegisterDescriptor.t;
  timestamp : Z;                  (* uint32_t *)
  value : list Z                  (* std::vector<uint16_t> *)
}.

(** [explicit Register(const RegisterDescriptor& d)
      : desc(d), value(d.length)] *)
Definition make (d : RegisterDescriptor.t) : t :=
  {| desc := d;
     timestamp := 0;
     value := replicate (Z.to_nat (RegisterDescriptor.length d)) 0 |}.

(** [value == other.value] on [std::vector<uint16_t>]. *)
Definition value_eqb (v w : list Z) : bool := bool_decide (v = w).

(** [operator==] *)
Definition op_eq (a other : t) : bool :=
  negb (timestamp a =? 0) && negb (timestamp other =? 0)
  && value_eqb (value a) (value other).

(** [operator!=] *)
Definition op_ne (a other : t) : bool :=
  (timestamp a =? 0) || (timestamp other =? 0)
  || negb (value_eqb (value a) (value other)).

(** [operator bool] *)
Definition op_bool (a : t) : bool := negb (timestamp a =? 0).

(** A reading stored through a [Register&]: the reference member [desc]
    cannot be reseated, the timestamp and the words are assigned. *)
Definition assign (r : t) (tstamp : Z) (words : list Z) : t :=
  {| desc := desc r; timestamp := tstamp; value := words |}.
End Register.

Module RegisterStore.
Record t := mk {
  desc : RegisterDescriptor.t;
  reg_addr : Z;                   (* uint16_t *)
  history : list Register.t;
  idx : Z                         (* int32_t *)
}.

(** [explicit RegisterStore(const RegisterDescriptor& d)
      : desc(d), reg_addr(d.begin), history(d.keep, Register(d))] *)
Definition make (d : RegisterDescriptor.t) : t :=
  {| desc := d;
     reg_addr := RegisterDescriptor.begin d;
     history :=
       replicate (Z.to_nat (RegisterDescriptor.keep d)) (Register.make d);
     idx := 0 |}.

(** [history.size()] *)
Definition size (s : t) : Z := Z.of_nat (List.length (history s)).

(** [front()] and [back()] return references: the slot they designate ... *)
Definition front_slot (s : t) : Z := idx s.
Definition back_slot (s : t) : Z :=
  if idx s =? 0 then size s - 1 else idx s - 1.

(** ... and the register found there. *)
Definition front (s : t) : option Register.t :=
  vec_at (history s) (front_slot s).
Definition back (s : t) : option Register.t :=
  vec_at (history s) (back_slot s).

(** [operator++]: [idx = (idx + 1) % history.size()].  The sum is an
    [int], converted to [size_t] for the remainder, the result converted
    back to [int32_t].  An empty history divides by zero: [None]. *)
Definition op_incr (s : t) : option t :=
  if size s =? 0 then None
  else Some {| desc := desc s; reg_addr := reg_addr s; history := history s;
               idx := int32 (size_t (int32 (idx s + 1)) mod size s) |}.

(** Assignment through the reference returned by [front()] or [back()]. *)
Definition write_slot (s : t) (slot : Z) (tstamp : Z) (words : list Z)
  : option t :=
  r ← vec_at (history s) slot;
  Some {| desc := desc s; reg_addr := reg_addr s;
          history := <[Z.to_nat slot := Register.assign r tstamp words]>
                       (history s);
          idx := idx s |}.
Definition write_front (s : t) (w : Z * list Z) : option t :=
  write_slot s (front_slot s) (fst w) (snd w).
Definition write_back (s : t) (w : Z * list Z) : option t :=
  write_slot s (back_slot s) (fst w) (snd w).

(** The caller's write discipline: store into [front()], then [++]. *)
Definition record (s : t) (w : Z * list Z) : option t :=
  s' ← write_front s w; op_incr s'.

(** The slots in chronological order, oldest first: from [front()] round
    the ring. *)
Definition chronological (s : t) : list Register.t :=
  drop (Z.to_nat (idx s)) (history s) ++ take (Z.to_nat (idx s)) (history s).

(** States a store goes through: built from its descriptor, then advanced
    and written through [front()] and [back()] any number of times. *)
Inductive reachable (d : RegisterDescriptor.t) : t -> Prop :=
| reach_make : reachable d (make d)
| reach_incr s s' :
    reachable d s -> op_incr s = Some s' -> reachable d s'
| reach_write_front s w s' :
    reachable d s -> write_front s w = Some s' -> reachable d s'
| reach_write_back s w s' :
    reachable d s -> write_back s w = Some s' -> reachable d s'.
End RegisterStore.

(** ** Exceptions and the monad of methods

    A method runs on its object and either returns or throws; the object is
    there in both cases. *)

Inductive exn :=
| underflow_error (what : string)
| overflow_error (what : string)
| bad_resp_error (what : string) (expected_value value : Z)
| FrameLengthError
| CrcMismatchError.

Definition M (S A : Type) : Type := S -> (exn + A) * S.

#[export] Instance M_ret S : MRet (M S) := fun A a s => (inr a, s).
#[export] Instance M_bind S : MBind (M S) := fun A B f c s =>
  match c s with
  | (inl e, s') => (inl e, s')
  | (inr a, s') => f a s'
  end.

Definition throw {S A} (e : exn) : M S A := fun s => (inl e, s).
Definition gets {S A} (f : S -> A) : M S A := fun s => (inr (f s), s).
Definition modify {S} (f : S -> S) : M S unit := fun s => (inr tt, f s).

(** [check_value] of modbus_cmds.cpp; both operands are [uint32_t]. *)
Definition check_value {S} (what : string) (value expected_value : Z)
  : M S unit :=
  if negb (uint32 value =? uint32 expected_value)
  then throw (bad_resp_error what (uint32 expected_value) (uint32 value))
  else mret tt.

(** ** The frame codec (Msg) *)

Definition Z_of_byte (b : byte) : Z := Z.of_N (Byte.to_N b).
Definition byte_of_Z (z : Z) : byte :=
  match Byte.of_N (Z.to_N (uint8 z)) with Some b => b | None => x00 end.

(** Modelled from the spec: the Modbus CRC16 of section 4.1 (initial value
    0xFFFF, reflected polynomial 0xA001), which msg.cpp computes and the
    sources do not include. *)
Definition crc16_shift (crc : Z) : Z :=
  if Z.testbit crc 0 then Z.lxor (Z.shiftr crc 1) 0xA001 else Z.shiftr crc 1.
(** Modelled from the spec: the CRC after one more byte. *)
Definition crc16_byte (crc : Z) (b : byte) : Z :=
  Nat.iter 8 crc16_shift (Z.lxor crc (Z_of_byte b)).
(** Modelled from the spec: the CRC of a run of bytes. *)
Definition crc16 (bs : list byte) : Z := fold_left crc16_byte bs 0xFFFF.

Module Msg.
(** Modelled from the spec: the base class of every command, declared in
    msg.hpp, which the sources do not include.  [raw] is the byte array
    of the frame (its length is the array's size), [len] the number of
    bytes in use and [addr] the address the request constructors record. *)
Record t := mk {
  raw : list byte;
  len : nat;                      (* size_t *)
  addr : Z                        (* uint8_t *)
}.

Definition fresh (raw_size : nat) : t :=
  {| raw := replicate raw_size x00; len := 0; addr := 0 |}.

Definition set_len (n : nat) (m : t) : t :=
  {| raw := raw m; len := n; addr := addr m |}.
Definition set_raw (bs : list byte) (m : t) : t :=
  {| raw := bs; len := len m; addr := addr m |}.
Definition set_addr (a : Z) (m : t) : t :=
  {| raw := raw m; len := len m; addr := a |}.

(** The bytes in use. *)
Definition bytes (m : t) : list byte := take (len m) (raw m).
End Msg.

(** A command class derives from [Msg]. *)
Class IsMsg (Obj : Type) := {
  msg : Obj -> Msg.t;
  with_msg : Msg.t -> Obj -> Obj;
  msg_with_msg : forall m s, msg (with_msg m s) = m;
  with_msg_msg : forall s, with_msg (msg s) s = s;
  with_msg_with_msg : forall m m' s, with_msg m (with_msg m' s) = with_msg m s
}.

#[export] Instance Msg_IsMsg : IsMsg Msg.t :=
  {| msg := fun m => m; with_msg := fun m _ => m;
     msg_with_msg := fun _ _ => eq_refl;
     with_msg_msg := fun _ => eq_refl;
     with_msg_with_msg := fun _ _ _ => eq_refl |}.

Section Codec.
Context {Obj : Type} `{IsMsg Obj}.

Definition get_len : M Obj nat := gets (fun s => Msg.len (msg s)).
Definition put_len (n : nat) : M Obj unit :=
  modify (fun s => with_msg (Msg.set_len n (msg s)) s).

(** Modelled from the spec: [operator<<(uint8_t)], the push of section
    4.1, absent from the sources: the byte is stored at [raw[len]] and
    [len] grows by one.  A full array is reported as [overflow_error]. *)
Definition push_u8 (d : Z) : M Obj unit := fun s =>
  let m := msg s in
  if decide (Msg.len m < length (Msg.raw m))%nat
  then (inr tt,
        with_msg (Msg.set_len (S (Msg.len m))
                    (Msg.set_raw (<[Msg.len m := byte_of_Z d]> (Msg.raw m)) m))
                 s)
  else (inl (overflow_error "Message too large"), s).

(** Modelled from the spec: [operator<<(uint16_t)], big-endian. *)
Definition push_u16 (d : Z) : M Obj unit :=
  push_u8 (uint16 d / 256);; push_u8 (uint16 d mod 256).

(** Modelled from the spec: [operator>>(uint8_t&)], the pop of section
    4.1: the field is taken from the tail, [raw[--len]].  Nothing left to
    pop is an [underflow_error]. *)
Definition pop_u8 : M Obj Z := fun s =>
  let m := msg s in
  match Msg.len m with
  | O => (inl (underflow_error "Message too small"), s)
  | S n =>
      match Msg.raw m !! n with
      | Some b => (inr (Z_of_byte b), with_msg (Msg.set_len n m) s)
      | None => (inl (underflow_error "Message too small"), s)
      end
  end.

(** Modelled from the spec: [operator>>(uint16_t&)]; the low byte lies
    nearer the tail. *)
Definition pop_u16 : M Obj Z :=
  lo ← pop_u8; hi ← pop_u8; mret (hi * 256 + lo).

(** Modelled from the spec: [operator>>(std::vector<uint16_t>&)]: the
    vector keeps its size and is filled from its last word to its first,
    so that it reads in wire order.  The words are handed over when all of
    them are popped; an underflow half-way leaves none recorded. *)
Fixpoint pop_u16s (n : nat) : M Obj (list Z) :=
  match n with
  | O => mret []
  | S k => w ← pop_u16; ws ← pop_u16s k; mret (ws ++ [w])
  end.

(** Modelled from the spec: [finalize()], the CRC of the bytes in use,
    appended low byte first. *)
Definition finalize : M Obj unit :=
  crc ← gets (fun s => crc16 (Msg.bytes (msg s)));
  push_u8 (crc mod 256);; push_u8 (crc / 256).

(** Modelled from the spec: [validate()]: the received length (that of
    [raw], where the transport left the frame) must be the expected [len],
    and the trailing two bytes the CRC of the others; the CRC is then
    chopped off. *)
Definition validate : M Obj unit := fun s =>
  let m := msg s in
  if negb (length (Msg.raw m) =? Msg.len m)%nat
  then (inl FrameLengthError, s)
  else
    match Msg.len m with
    | S (S n) =>
        match Msg.raw m !! n, Msg.raw m !! S n with
        | Some lo, Some hi =>
            if crc16 (take n (Msg.raw m)) =? Z_of_byte lo + 256 * Z_of_byte hi
            then (inr tt, with_msg (Msg.set_len n m) s)
            else (inl CrcMismatchError, s)
        | _, _ => (inl FrameLengthError, s)
        end
    | _ => (inl (underflow_error "Message too small"), s)
    end.
End Codec.

(** ** modbus_cmds.cpp *)

(** Modelled from the spec: the function code of Read Holding Registers
    (section 4.2), a constant of modbus_cmds.hpp. *)
Definition READ_HOLDING_REGISTERS : Z := 0x03.
(** Modelled from the spec: the function code of Write Single Register. *)
Definition WRITE_SINGLE_REGISTER : Z := 0x06.
(** Modelled from the spec: the function code of Write Multiple Registers. *)
Definition WRITE_MULTIPLE_REGISTERS : Z := 0x10.
(** Modelled from the spec: the function code of Read File Record. *)
Definition READ_FILE_RECORD : Z := 0x14.

Module ReadHoldingRegistersReq.
Record t := mk {
  base : Msg.t;
  dev_addr : Z;                   (* uint8_t *)
  function : Z;                   (* uint8_t *)
  starting_addr : Z;              (* uint16_t *)
  reg_count : Z                   (* uint16_t *)
}.
#[global] Instance is_msg : IsMsg t :=
  {| msg := base;
     with_msg := fun m r =>
       {| base := m; dev_addr := dev_addr r; function := function r;
          starting_addr := starting_addr r; reg_count := reg_count r |};
     msg_with_msg := fun _ _ => eq_refl;
     with_msg_msg := fun r => match r with mk _ _ _ _ _ => eq_refl end;
     with_msg_with_msg := fun _ _ _ => eq_refl |}.

Definition make (raw_size : nat) (a reg_off cnt : Z) : t :=
  {| base := Msg.set_addr (uint8 a) (Msg.fresh raw_size);
     dev_addr := uint8 a; function := READ_HOLDING_REGISTERS;
     starting_addr := uint16 reg_off; reg_count := uint16 cnt |}.

Definition encode : M t unit :=
  r ← gets id;
  push_u8 (dev_addr r);; push_u8 (function r);;
  push_u16 (starting_addr r);; push_u16 (reg_count r);;
  finalize.
End ReadHoldingRegistersReq.

Module ReadHoldingRegistersResp.
Record t := mk {
  base : Msg.t;
  regs : list Z;                  (* std::vector<uint16_t>& *)
  byte_count : Z;                 (* uint8_t *)
  function : Z;                   (* uint8_t *)
  dev_addr : Z                    (* uint8_t *)
}.
#[global] Instance is_msg : IsMsg t :=
  {| msg := base;
     with_msg := fun m r =>
       {| base := m; regs := regs r; byte_count := byte_count r;
          function := function r; dev_addr := dev_addr r |};
     msg_with_msg := fun _ _ => eq_refl;
     with_msg_msg := fun r => match r with mk _ _ _ _ _ => eq_refl end;
     with_msg_with_msg := fun _ _ _ => eq_refl |}.

Definition set_regs (v : list Z) (r : t) : t :=
  {| base := base r; regs := v; byte_count := byte_count r;
     function := function r; dev_addr := dev_addr r |}.
Definition set_byte_count (v : Z) (r : t) : t :=
  {| base := base r; regs := regs r; byte_count := v;
     function := function r; dev_addr := dev_addr r |}.
Definition set_function (v : Z) (r : t) : t :=
  {| base := base r; regs := regs r; byte_count := byte_count r;
     function := v; dev_addr := dev_addr r |}.
Definition set_dev_addr (v : Z) (r : t) : t :=
  {| base := base r; regs := regs r; byte_count := byte_count r;
     function := function r; dev_addr := v |}.

Definition expected_function : Z := READ_HOLDING_REGISTERS.

(** The constructor: no register to read is an underflow. *)
Definition make (raw_size : nat) (r : list Z) : exn + t :=
  if (length r =? 0)%nat
  then inl (underflow_error "Response too small")
  else inr {| base := Msg.set_len (5 + 2 * length r) (Msg.fresh raw_size);
              regs := r; byte_count := 0; function := 0; dev_addr := 0 |}.

Definition decode : M t unit :=
  validate;;
  n ← gets (fun r => length (regs r));
  ws ← pop_u16s n; modify (set_regs ws);;
  bc ← pop_u8; modify (set_byte_count bc);;
  f ← pop_u8; modify (set_function f);;
  a ← pop_u8; modify (set_dev_addr a);;
  check_value "function" f expected_function;;
  sz ← gets (fun r => Z.of_nat (length (regs r)));
  check_value "byte_count" bc (sz * 2).
End ReadHoldingRegistersResp.

Module WriteSingleRegisterReq.
Record t := mk {
  base : Msg.t;
  dev_addr : Z;                   (* uint8_t *)
  function : Z;                   (* uint8_t *)
  reg_off : Z;                    (* uint16_t *)
  value : Z                       (* uint16_t *)
}.
#[global] Instance is_msg : IsMsg t :=
  {| msg := base;
     with_msg := fun m r =>
       {| base := m; dev_addr := dev_addr r; function := function r;
          reg_off := reg_off r; value := value r |};
     msg_with_msg := fun _ _ => eq_refl;
     with_msg_msg := fun r => match r with mk _ _ _ _ _ => eq_refl end;
     with_msg_with_msg := fun _ _ _ => eq_refl |}.

Definition make (raw_size : nat) (a off val : Z) : t :=
  {| base := Msg.set_addr (uint8 a) (Msg.fresh raw_size);
     dev_addr := uint8 a; function := WRITE_SINGLE_REGISTER;
     reg_off := uint16 off; value := uint16 val |}.

Definition encode : M t unit :=
  r ← gets id;
  push_u8 (dev_addr r);; push_u8 (function r);;
  push_u16 (reg_off r);; push_u16 (value r);;
  finalize.
End WriteSingleRegisterReq.

Module WriteSingleRegisterResp.
Record t := mk {
  base : Msg.t;
  dev_addr : Z;                   (* uint8_t *)
  function : Z;                   (* uint8_t *)
  reg_off : Z;                    (* uint16_t *)
  value : Z;                      (* uint16_t *)
  expected_reg_off : Z;           (* uint16_t *)
  expected_value : option Z       (* std::optional<uint16_t> *)
}.
#[global] Instance is_msg : IsMsg t :=
  {| msg := base;
     with_msg := fun m r =>
       {| base := m; dev_addr := dev_addr r; function := function r;
          reg_off := reg_off r; value := value r;
          expected_reg_off := expected_reg_off r;
          expected_value := expected_value r |};
     msg_with_msg := fun _ _ => eq_refl;
     with_msg_msg := fun r => match r with mk _ _ _ _ _ _ _ => eq_refl end;
     with_msg_with_msg := fun _ _ _ => eq_refl |}.

Definition set_value (v : Z) (r : t) : t :=
  {| base := base r; dev_addr := dev_addr r; function := function r;
     reg_off := reg_off r; value := v;
     expected_reg_off := expected_reg_off r;
     expected_value := expected_value r |}.
Definition set_reg_off (v : Z) (r : t) : t :=
  {| base := base r; dev_addr := dev_addr r; function := function r;
     reg_off := v; value := value r;
     expected_reg_off := expected_reg_off r;
     expected_value := expected_value r |}.
Definition set_function (v : Z) (r : t) : t :=
  {| base := base r; dev_addr := dev_addr r; function := v;
     reg_off := reg_off r; value := value r;
     expected_reg_off := expected_reg_off r;
     expected_value := expected_value r |}.
Definition set_dev_addr (v : Z) (r : t) : t :=
  {| base := base r; dev_addr := v; function := function r;
     reg_off := reg_off r; value := value r;
     expected_reg_off := expected_reg_off r;
     expected_value := expected_value r |}.

(** [WriteSingleRegisterResp(uint8_t a, uint16_t off)] *)
Definition make (raw_size : nat) (a off : Z) : t :=
  {| base := Msg.set_len 8 (Msg.fresh raw_size);
     dev_addr := uint8 a; function := 0; reg_off := 0; value := 0;
     expected_reg_off := uint16 off; expected_value := None |}.

(** [WriteSingleRegisterResp(uint8_t a, uint16_t off, uint16_t val)] *)
Definition make_val (raw_size : nat) (a off val : Z) : t :=
  {| base := Msg.set_len 8 (Msg.fresh raw_size);
     dev_addr := uint8 a; function := 0; reg_off := 0; value := 0;
     expected_reg_off := uint16 off; expected_value := Some (uint16 val) |}.

Definition decode : M t unit :=
  validate;;
  v ← pop_u16; modify (set_value v);;
  off ← pop_u16; modify (set_reg_off off);;
  f ← pop_u8; modify (set_function f);;
  a ← pop_u8; modify (set_dev_addr a);;
  exp_off ← gets expected_reg_off;
  check_value "reg_off" off exp_off;;
  exp_val ← gets expected_value;
  match exp_val with
  | Some ev => check_value "value" v ev
  | None => mret tt
  end.
End WriteSingleRegisterResp.

Module WriteMultipleRegistersReq.
Record t := mk {
  base : Msg.t;
  dev_addr : Z;                   (* uint8_t *)
  function : Z;                   (* uint8_t *)
  starting_addr : Z;              (* uint16_t *)
  reg_count : Z                   (* uint16_t *)
}.
#[global] Instance is_msg : IsMsg t :=
  {| msg := base;
     with_msg := fun m r =>
       {| base := m; dev_addr := dev_addr r; function := function r;
          starting_addr := starting_addr r; reg_count := reg_count r |};
     msg_with_msg := fun _ _ => eq_refl;
     with_msg_msg := fun r => match r with mk _ _ _ _ _ => eq_refl end;
     with_msg_with_msg := fun _ _ _ => eq_refl |}.

Definition set_reg_count (v : Z) (r : t) : t :=
  {| base := base r; dev_addr := dev_addr r; function := function r;
     starting_addr := starting_addr r; reg_count := v |}.

(** The constructor leaves room for the header: [addr = a; len = 7]. *)
Definition make (raw_size : nat) (a off : Z) : t :=
  {| base := Msg.set_len 7 (Msg.set_addr (uint8 a) (Msg.fresh raw_size));
     dev_addr := uint8 a; function := WRITE_MULTIPLE_REGISTERS;
     starting_addr := uint16 off; reg_count := 0 |}.

Definition encode : M t unit :=
  len ← get_len;
  if (len <=? 7)%nat then throw (underflow_error "No registers to write")
  else
    let data_len := uint8 (Z.of_nat len - 7) in
    (* Pad if the result does not fit in whole 16bit regs. *)
    data_len ← (if negb (data_len mod 2 =? 0)
                then push_u8 0;; mret (uint8 (data_len + 1))
                else mret data_len);
    (* Count the total registers. *)
    modify (set_reg_count (data_len / 2));;
    put_len 0;;
    r ← gets id;
    push_u8 (dev_addr r);; push_u8 (function r);;
    push_u16 (starting_addr r);; push_u16 (reg_count r);;
    push_u8 data_len;;
    len ← get_len;
    put_len (len + Z.to_nat data_len);;
    finalize.
End WriteMultipleRegistersReq.

Module WriteMultipleRegistersResp.
Record t := mk {
  base : Msg.t;
  dev_addr : Z;                   (* uint8_t *)
  function : Z;                   (* uint8_t *)
  starting_addr : Z;              (* uint16_t *)
  reg_count : Z;                  (* uint16_t *)
  expected_dev_addr : Z;          (* uint8_t *)
  expected_starting_addr : Z;     (* uint16_t *)
  expected_reg_count : Z          (* uint16_t *)
}.
#[global] Instance is_msg : IsMsg t :=
  {| msg := base;
     with_msg := fun m r =>
       {| base := m; dev_addr := dev_addr r; function := function r;
          starting_addr := starting_addr r; reg_count := reg_count r;
          expected_dev_addr := expected_dev_addr r;
          expected_starting_addr := expected_starting_addr r;
          expected_reg_count := expected_reg_count r |};
     msg_with_msg := fun _ _ => eq_refl;
     with_msg_msg := fun r => match r with mk _ _ _ _ _ _ _ _ => eq_refl end;
     with_msg_with_msg := fun _ _ _ => eq_refl |}.

Definition set_popped (cnt off f a : Z) (r : t) : t :=
  {| base := base r; dev_addr := a; function := f;
     starting_addr := off; reg_count := cnt;
     expected_dev_addr := expected_dev_addr r;
     expected_starting_addr := expected_starting_addr r;
     expected_reg_count := expected_reg_count r |}.

Definition expected_function : Z := WRITE_MULTIPLE_REGISTERS.

Definition make (raw_size : nat) (a off cnt : Z) : t :=
  {| base := Msg.set_len 8 (Msg.fresh raw_size);
     dev_addr := 0; function := 0; starting_addr := 0; reg_count := 0;
     expected_dev_addr := uint8 a;
     expected_starting_addr := uint16 off;
     expected_reg_count := uint16 cnt |}.

Definition decode : M t unit :=
  validate;;
  (* Pop fields from behind *)
  cnt ← pop_u16; off ← pop_u16; f ← pop_u8; a ← pop_u8;
  modify (set_popped cnt off f a);;
  r ← gets id;
  check_value "dev_addr" a (expected_dev_addr r);;
  check_value "function" f expected_function;;
  check_value "starting_addr" off (expected_starting_addr r);;
  check_value "reg_count" cnt (expected_reg_count r).
End WriteMultipleRegistersResp.

Module FileRecord.
(** Modelled from the spec: the file record of modbus_cmds.hpp (file
    number, record number, the words of the record). *)
Record t := mk {
  file_num : Z;                   (* uint16_t *)
  record_num : Z;                 (* uint16_t *)
  data : list Z                   (* std::vector<uint16_t> *)
}.
Definition set_data (d : list Z) (r : t) : t :=
  {| file_num := file_num r; record_num := record_num r; data := d |}.
End FileRecord.

Module ReadFileRecordResp.
Record t := mk {
  base : Msg.t;
  dev_addr : Z;                   (* uint8_t *)
  function : Z;                   (* uint8_t *)
  records : list FileRecord.t     (* std::vector<FileRecord>& *)
}.
#[global] Instance is_msg : IsMsg t :=
  {| msg := base;
     with_msg := fun m r =>
       {| base := m; dev_addr := dev_addr r; function := function r;
          records := records r |};
     msg_with_msg := fun _ _ => eq_refl;
     with_msg_msg := fun r => match r with mk _ _ _ _ => eq_refl end;
     with_msg_with_msg := fun _ _ _ => eq_refl |}.

Definition set_function (v : Z) (r : t) : t :=
  {| base := base r; dev_addr := dev_addr r; function := v;
     records := records r |}.
Definition set_record (i : nat) (rec : FileRecord.t) (r : t) : t :=
  {| base := base r; dev_addr := dev_addr r; function := function r;
     records := <[i := rec]> (records r) |}.

Definition expected_function : Z := READ_FILE_RECORD.

(** [len = 5; for (auto& r : rec) len += 2 + (2 * r.data.size());] *)
Definition expected_len (rec : list FileRecord.t) : nat :=
  fold_left (fun len r => len + (2 + 2 * length (FileRecord.data r)))%nat
            rec 5%nat.

Definition make (raw_size : nat) (a : Z) (rec : list FileRecord.t) : t :=
  {| base := Msg.set_len (expected_len rec) (Msg.fresh raw_size);
     dev_addr := uint8 a; function := 0; records := rec |}.

(** The loop over [records.rbegin() .. records.rend()]: [i] records are
    still to be read, the next one is [records[i - 1]]. *)
Fixpoint decode_records (i : nat) : M t unit :=
  match i with
  | O => mret tt
  | S k =>
      rec ← gets (fun r => records r !! k);
      match rec with
      | None => mret tt
      | Some rec =>
          d ← pop_u16s (length (FileRecord.data rec));
          modify (set_record k (FileRecord.set_data d rec));;
          ref ← pop_u8;
          flen ← pop_u8;
          check_value "reference" ref 0x6;;
          check_value "field_size" flen (1 + Z.of_nat (length d) * 2);;
          decode_records k
      end
  end.

Definition decode : M t unit :=
  validate;;
  (* len includes addr,func,data_len, so get the expected data_len by
     subtracting 3 from the length after chopping off the CRC. *)
  len ← get_len;
  let bytes_exp := uint8 (Z.of_nat len - 3) in
  n ← gets (fun r => length (records r));
  decode_records n;;
  data_len ← pop_u8;
  f ← pop_u8; modify (set_function f);;
  got_addr ← pop_u8;
  check_value "data_len" data_len bytes_exp;;
  check_value "function" f expected_function;;
  a ← gets dev_addr;
  check_value "addr" got_addr a;;
  len ← get_len;
  check_value "length" (Z.of_nat len) 0.
End ReadFileRecordResp.

(** The outcome of a method call and the object it leaves. *)
Definition outcome {S A} (c : M S A) (s : S) : exn + A := fst (c s).
Definition after {S A} (c : M S A) (s : S) : S := snd (c s).

(** A response object once the transport (external) has left the bytes [rx]
    it received in [raw]. *)
Definition received {Obj} `{IsMsg Obj} (rx : list byte) (s : Obj) : Obj :=
  with_msg (Msg.set_raw rx (msg s)) s.

(** ** Reading a frame by position

    What the tail-first pops of a decoder amount to, said front to back. *)

(** The 16-bit words of a run of bytes, big-endian. *)
Fixpoint words_of (bs : list byte) : list Z :=
  match bs with
  | hi :: lo :: rest => (Z_of_byte hi * 256 + Z_of_byte lo) :: words_of rest
  | _ => []
  end.

(** The byte at offset [i] of a frame. *)
Definition u8_at (bs : list byte) (i : nat) : Z :=
  from_option Z_of_byte 0 (bs !! i).

(** [bs] are the bytes in use of [m]. *)
Definition in_use (m : Msg.t) (bs : list byte) : Prop :=
  Msg.len m = length bs /\ take (length bs) (Msg.raw m) = bs.

(** The object with only the first [n] bytes left in use. *)
Definition chop {Obj} `{IsMsg Obj} (n : nat) (s : Obj) : Obj :=
  with_msg (Msg.set_len n (msg s)) s.

(** A received frame passes [validate()]. *)
Definition passes_validate {Obj} `{IsMsg Obj} (s : Obj) : Prop :=
  outcome validate s = inr tt.

(** ** The Read File Record response, said by position

    The checks of [ReadFileRecordResp::decode] in the words of the
    specification (section 4.2), to compare the decoder with. *)

Definition record_size (r : FileRecord.t) : nat := length (FileRecord.data r).

(** The sub-responses of the frame, front to back: for a record of [n]
    words, the field length byte, the reference type byte and the [n] words
    that follow. *)
Fixpoint record_fields (sizes : list nat) (bs : list byte)
  : list (Z * Z * list Z) :=
  match sizes with
  | [] => []
  | n :: ns =>
      (u8_at bs 0, u8_at bs 1, words_of (take (2 * n) (drop 2 bs)))
      :: record_fields ns (drop (2 + 2 * n) bs)
  end.

(** What is checked on one sub-response: (field name, value, expected). *)
Definition record_checks (fields : Z * Z * list Z) : list (string * Z * Z) :=
  let '(flen, ref, ws) := fields in
  [("reference"%string, ref, 0x6);
   ("field_size"%string, flen, 1 + Z.of_nat (length ws) * 2)].

(** The checks on a whole frame, in the order they are made: the records
    from the last to the first, then data_len, function and address. *)
Definition ReadFileRecordResp_checks_spec (a : Z) (recs : list FileRecord.t)
    (rx : list byte) : list (string * Z * Z) :=
  flat_map record_checks
    (reverse (record_fields (map record_size recs) (drop 3 rx)))
  ++ [("data_len"%string, u8_at rx 2, uint8 (Z.of_nat (length rx - 2) - 3));
      ("function"%string, u8_at rx 1, READ_FILE_RECORD);
      ("addr"%string, u8_at rx 0, a)].

(** The error of the first check that fails, as [check_value] reports it. *)
Fixpoint first_mismatch (cs : list (string * Z * Z)) : option exn :=
  match cs with
  | [] => None
  | (what, value, expected_value) :: cs' =>
      if uint32 value =? uint32 expected_value then first_mismatch cs'
      else Some (bad_resp_error what (uint32 expected_value) (uint32 value))
  end.

Definition raised (e : option exn) : exn + unit :=
  match e with Some e => inl e | None => inr tt end.

(** The records once the words of the frame are stored in them. *)
Definition with_fields (fields : list (Z * Z * list Z))
    (recs : list FileRecord.t) : list FileRecord.t :=
  zip_with (fun fld r => FileRecord.set_data (snd fld) r) fields recs.

(** ** The Write Multiple Registers request, said by position *)

(** The buffer holds [pre] in use, followed by [post]. *)
Definition written {Obj} `{IsMsg Obj} (s : Obj) (pre post : list byte) : Prop :=
  Msg.raw (msg s) = pre ++ post /\ Msg.len (msg s) = length pre.

(** The object with its buffer holding [pre] in use, followed by [post]. *)
Definition stored {Obj} `{IsMsg Obj} (pre post : list byte) (s : Obj) : Obj :=
  with_msg {| Msg.raw := pre ++ post; Msg.len := length pre;
              Msg.addr := Msg.addr (msg s) |} s.

(** The two CRC bytes of a frame, low byte first. *)
Definition crc_bytes (bs : list byte) : list byte :=
  [byte_of_Z (crc16 bs mod 256); byte_of_Z (crc16 bs / 256)].

(** The seven header bytes of the request for [data_len] bytes of data. *)
Definition WriteMultipleRegistersReq_header
    (q : WriteMultipleRegistersReq.t) (data_len : Z) : list byte :=
  [byte_of_Z (WriteMultipleRegistersReq.dev_addr q);
   byte_of_Z (WriteMultipleRegistersReq.function q);
   byte_of_Z (uint16 (WriteMultipleRegistersReq.starting_addr q) / 256);
   byte_of_Z (uint16 (WriteMultipleRegistersReq.starting_addr q) mod 256);
   byte_of_Z (uint16 (data_len / 2) / 256);
   byte_of_Z (uint16 (data_len / 2) mod 256);
   byte_of_Z data_len].

(** The data padded with a zero byte to whole registers. *)
Definition padded_data (data : list byte) : list byte :=
  if negb (Z.of_nat (length data) mod 2 =? 0) then data ++ [x00] else data.

(** ** Objects used as examples *)

(** A request for device 0x11, register 1, with the three data bytes
    01 02 03 appended after the room left for the header. *)
Definition example_request : WriteMultipleRegistersReq.t :=
  {| WriteMultipleRegistersReq.base :=
       {| Msg.raw := [x00; x00; x00; x00; x00; x00; x00; x01; x02; x03;
                      x00; x00; x00; x00; x00; x00];
          Msg.len := 10; Msg.addr := 0x11 |};
     WriteMultipleRegistersReq.dev_addr := 0x11;
     WriteMultipleRegistersReq.function := WRITE_MULTIPLE_REGISTERS;
     WriteMultipleRegistersReq.starting_addr := 1;
     WriteMultipleRegistersReq.reg_count := 0 |}.

(** One record of one word, of file 4. *)
Definition example_records : list FileRecord.t :=
  [{| FileRecord.file_num := 4; FileRecord.record_num := 1;
      FileRecord.data := [0] |}].

(** A store of three slots with its cursor on the last, and a store of one
    slot after a write. *)
Definition example_descriptor (keep : Z) : RegisterDescriptor.t :=
  RegisterDescriptor.mk 16 1 "state" keep false HEX 0 [].
Definition example_store3 : RegisterStore.t :=
  let d := example_descriptor 3 in
  RegisterStore.mk d 16
    [Register.mk d 7 [1]; Register.mk d 8 [2]; Register.mk d 6 [0]] 2.
Definition example_store1 : RegisterStore.t :=
  let d := example_descriptor 1 in
  RegisterStore.mk d 16 [Register.mk d 9 [3]] 0.

(** ** Runs of the history ring *)

(** [n] times [++]. *)
Fixpoint RegisterStore_advance (n : nat) (s : RegisterStore.t)
  : option RegisterStore.t :=
  match n with
  | O => Some s
  | S k => s' ← RegisterStore.op_incr s; RegisterStore_advance k s'
  end.

(** ** The rest of modbus_cmds.cpp *)

Module ReadFileRecordReq.
(** Modelled from the spec: the reference type of a file record request
    (section 4.2), a member constant of modbus_cmds.hpp. *)
Definition reference_type : Z := 0x06.

Record t := mk {
  base : Msg.t;
  dev_addr : Z;                   (* uint8_t *)
  function : Z;                   (* uint8_t *)
  records : list FileRecord.t     (* const std::vector<FileRecord>& *)
}.
#[global] Instance is_msg : IsMsg t :=
  {| msg := base;
     with_msg := fun m r =>
       {| base := m; dev_addr := dev_addr r; function := function r;
          records := records r |};
     msg_with_msg := fun _ _ => eq_refl;
     with_msg_msg := fun r => match r with mk _ _ _ _ => eq_refl end;
     with_msg_with_msg := fun _ _ _ => eq_refl |}.

Definition make (raw_size : nat) (a : Z) (rec : list FileRecord.t) : t :=
  {| base := Msg.set_addr (uint8 a) (Msg.fresh raw_size);
     dev_addr := uint8 a; function := READ_FILE_RECORD; records := rec |}.

(** [for (auto& rec : records) *this << reference_type << rec.file_num
      << rec.record_num << uint16_t(rec.data.size());] *)
Fixpoint encode_records (recs : list FileRecord.t) : M t unit :=
  match recs with
  | [] => mret tt
  | rec :: rest =>
      push_u8 reference_type;;
      push_u16 (FileRecord.file_num rec);;
      push_u16 (FileRecord.record_num rec);;
      push_u16 (uint16 (Z.of_nat (length (FileRecord.data rec))));;
      encode_records rest
  end.

(** [uint8_t& bytes = raw[2]; ...; bytes = len - 3;]: the byte count is
    written back into the third byte once the records are appended. *)
Definition patch_bytes : M t unit :=
  len ← get_len;
  modify (fun s =>
    with_msg (Msg.set_raw (<[2%nat := byte_of_Z (uint8 (Z.of_nat len - 3))]>
                             (Msg.raw (msg s))) (msg s)) s).

Definition encode : M t unit :=
  r ← gets id;
  push_u8 (dev_addr r);; push_u8 (function r);; push_u8 0;;
  encode_records (records r);;
  patch_bytes;;
  finalize.
End ReadFileRecordReq.

(** ** Frames said by position, continued *)

(** The 16-bit field at offset [i] of a frame, big-endian. *)
Definition u16_at (bs : list byte) (i : nat) : Z :=
  u8_at bs i * 256 + u8_at bs (S i).

(** The two bytes of a 16-bit field, and the bytes of a run of words. *)
Definition bytes_of_word (w : Z) : list byte :=
  [byte_of_Z (uint16 w / 256); byte_of_Z (uint16 w mod 256)].
Definition bytes_of_words (ws : list Z) : list byte :=
  flat_map bytes_of_word ws.

(** A frame: its body followed by the CRC of the body. *)
Definition with_crc (body : list byte) : list byte := body ++ crc_bytes body.

(** The checks of the three fixed-layout decoders, in the order they are
    made: (field name, value found, value expected). *)
Definition ReadHoldingRegistersResp_checks_spec (count : nat) (rx : list byte)
  : list (string * Z * Z) :=
  [("function"%string, u8_at rx 1, READ_HOLDING_REGISTERS);
   ("byte_count"%string, u8_at rx 2, Z.of_nat count * 2)].

Definition WriteSingleRegisterResp_checks_spec
    (r : WriteSingleRegisterResp.t) (rx : list byte) : list (string * Z * Z) :=
  ("reg_off"%string, u16_at rx 2, WriteSingleRegisterResp.expected_reg_off r)
  :: match WriteSingleRegisterResp.expected_value r with
     | Some ev => [("value"%string, u16_at rx 4, ev)]
     | None => []
     end.


(** The seven bytes a file record takes in a Read File Record request. *)
Definition record_request_bytes (rec : FileRecord.t) : list byte :=
  [byte_of_Z ReadFileRecordReq.reference_type]
  ++ bytes_of_word (FileRecord.file_num rec)
  ++ bytes_of_word (FileRecord.record_num rec)
  ++ bytes_of_word (Z.of_nat (length (FileRecord.data rec))).

(** The sub-response a device sends for a record of words [ws]. *)
Definition record_response_bytes (ws : list Z) : list byte :=
  [byte_of_Z (1 + Z.of_nat (length ws) * 2); x06] ++ bytes_of_words ws.

(** ** Properties of the register model *)

Lemma vec_at_Some {A} (v : list A) (i : Z) :
  0 <= i < Z.of_nat (List.length v) -> is_Some (vec_at v i).
Proof.
  intros Hi. unfold vec_at.
  destruct (Z.ltb_spec i 0) as [?|_]; [lia|].
  apply lookup_lt_is_Some. lia.
Qed.

Lemma int32_small (z : Z) : 0 <= z < 2 ^ 31 -> int32 z = z.
Proof. intros Hz. unfold int32. rewrite Z.mod_small; lia. Qed.

Lemma size_t_small (z : Z) : 0 <= z < 2 ^ 64 -> size_t z = z.
Proof. intros Hz. unfold size_t. apply Z.mod_small; lia. Qed.

Lemma op_incr_idx (s s' : RegisterStore.t) :
  0 <= RegisterStore.idx s < RegisterStore.size s ->
  RegisterStore.size s < 2 ^ 16 ->
  RegisterStore.op_incr s = Some s' ->
  RegisterStore.idx s' = (RegisterStore.idx s + 1) mod RegisterStore.size s
  /\ RegisterStore.history s' = RegisterStore.history s.
Proof.
  intros Hi Hk. unfold RegisterStore.op_incr.
  destruct (Z.eqb_spec (RegisterStore.size s) 0) as [?|Hne]; [lia|].
  intros [= <-]; simpl. split; [|done].
  rewrite (int32_small (_ + 1)) by lia.
  rewrite size_t_small by lia.
  apply int32_small.
  pose proof (Z.mod_pos_bound (RegisterStore.idx s + 1) (RegisterStore.size s)).
  lia.
Qed.

Lemma value_eqb_eq (v w : list Z) : Register.value_eqb v w = true <-> v = w.
Proof. unfold Register.value_eqb. apply bool_decide_eq_true. Qed.

(** ** Register comparison *)

(** C4.  Two registers compare equal exactly when both timestamps are
    non-zero and the raw words agree; a register with timestamp 0, on either
    side and whatever its words, is not equal to anything ([==] false, [!=]
    true). *)
Theorem Register_op_eq_valid_reads (a b : Register.t) :
  (Register.op_eq a b = true <->
     Register.timestamp a <> 0 /\ Register.timestamp b <> 0
     /\ Register.value a = Register.value b)
  /\ (forall d v,
        let invalid := Register.mk d 0 v in
        Register.op_eq invalid b = false /\ Register.op_ne invalid b = true
        /\ Register.op_eq a invalid = false /\ Register.op_ne a invalid = true).
Proof.
  split.
  - unfold Register.op_eq.
    rewrite !andb_true_iff, !negb_true_iff, !Z.eqb_neq, value_eqb_eq.
    tauto.
  - intros d v invalid. unfold Register.op_eq, Register.op_ne; simpl.
    repeat split.
    + destruct (Register.timestamp a =? 0); reflexivity.
    + destruct (Register.timestamp a =? 0); reflexivity.
Qed.

(** C9.  [a != b] is the negation of [a == b] for every pair of registers,
    valid or not. *)
Theorem Register_op_ne_negates_op_eq (a b : Register.t) :
  Register.op_ne a b = negb (Register.op_eq a b).
Proof.
  unfold Register.op_ne, Register.op_eq.
  destruct (Register.timestamp a =? 0), (Register.timestamp b =? 0),
    (Register.value_eqb (Register.value a) (Register.value b)); reflexivity.
Qed.

(** ** The history ring *)

Lemma record_make3 (d : RegisterDescriptor.t) (w0 w1 w2 w3 : Z * list Z) :
  RegisterDescriptor.keep d = 3 ->
  let R w := Register.mk d (fst w) (snd w) in
  (s1 ← RegisterStore.record (RegisterStore.make d) w0;
   s2 ← RegisterStore.record s1 w1;
   s3 ← RegisterStore.record s2 w2;
   RegisterStore.record s3 w3)
  = Some {| RegisterStore.desc := d;
            RegisterStore.reg_addr := RegisterDescriptor.begin d;
            RegisterStore.history := [R w3; R w1; R w2];
            RegisterStore.idx := 1 |}.
Proof.
  intros Hk R. unfold RegisterStore.make. rewrite Hk.
  reflexivity.
Qed.

(** C3.  In a store of capacity [keep >= 1] with the cursor in [0, keep):
    [front()] is the slot at [idx], [back()] the slot at [idx - 1] (the last
    slot when [idx] is 0), and [++] moves the cursor to [(idx + 1) mod keep]
    and touches no slot.  Hence with [keep = 3], after the writes w0, w1, w2,
    w3, each into [front()] and followed by [++], [back()] holds w3 and the
    slots hold w1, w2, w3 (oldest first), w0 having been overwritten by w3. *)
Theorem RegisterStore_ring (s : RegisterStore.t) (keep : Z) :
  RegisterStore.size s = keep ->
  1 <= keep < 2 ^ 16 ->
  0 <= RegisterStore.idx s < keep ->
  (RegisterStore.front s
   = RegisterStore.history s !! Z.to_nat (RegisterStore.idx s)
   /\ is_Some (RegisterStore.front s))
  /\ (RegisterStore.back s =
        (if RegisterStore.idx s =? 0 then last (RegisterStore.history s)
         else RegisterStore.history s !! Z.to_nat (RegisterStore.idx s - 1))
      /\ is_Some (RegisterStore.back s))
  /\ (exists s', RegisterStore.op_incr s = Some s'
        /\ RegisterStore.idx s' = (RegisterStore.idx s + 1) mod keep
        /\ RegisterStore.history s' = RegisterStore.history s)
  /\ (forall d w0 w1 w2 w3,
        RegisterDescriptor.keep d = 3 ->
        let R w := Register.mk d (fst w) (snd w) in
        exists s4,
          (s1 ← RegisterStore.record (RegisterStore.make d) w0;
           s2 ← RegisterStore.record s1 w1;
           s3 ← RegisterStore.record s2 w2;
           RegisterStore.record s3 w3) = Some s4
          /\ RegisterStore.back s4 = Some (R w3)
          /\ RegisterStore.chronological s4 = [R w1; R w2; R w3]
          /\ RegisterStore.history s4 = [R w3; R w1; R w2]).
Proof.
  intros Hsz Hk Hi. repeat split.
  - unfold RegisterStore.front, RegisterStore.front_slot, vec_at.
    destruct (Z.ltb_spec (RegisterStore.idx s) 0); [lia|done].
  - apply vec_at_Some. unfold RegisterStore.front_slot.
    unfold RegisterStore.size in Hsz. lia.
  - unfold RegisterStore.back, RegisterStore.back_slot, vec_at.
    destruct (Z.eqb_spec (RegisterStore.idx s) 0) as [H0|H0].
    + destruct (Z.ltb_spec (RegisterStore.size s - 1) 0); [lia|].
      rewrite last_lookup. f_equal. unfold RegisterStore.size. lia.
    + destruct (Z.ltb_spec (RegisterStore.idx s - 1) 0); [lia|done].
  - apply vec_at_Some. unfold RegisterStore.back_slot.
    unfold RegisterStore.size in *.
    destruct (Z.eqb_spec (RegisterStore.idx s) 0); lia.
  - destruct (RegisterStore.op_incr s) as [s'|] eqn:Hs'.
    + exists s'. split; [done|]. rewrite <- Hsz.
      apply op_incr_idx; [lia|lia|done].
    + unfold RegisterStore.op_incr in Hs'.
      destruct (Z.eqb_spec (RegisterStore.size s) 0); [lia|done].
  - intros d w0 w1 w2 w3 Hd R. eexists. split.
    + by apply record_make3.
    + done.
Qed.

Lemma RegisterStore_ring_witness :
  RegisterStore.front example_store3
    = Some (Register.mk (example_descriptor 3) 6 [0])
  /\ RegisterStore.back example_store3
      = Some (Register.mk (example_descriptor 3) 8 [2])
  /\ exists s', RegisterStore.op_incr example_store3 = Some s'
               /\ RegisterStore.idx s' = 0.
Proof.
  destruct (RegisterStore_ring example_store3 3)
    as [[Hf _] [[Hb _] [(s' & Hs' & Hi & _) _]]];
    [reflexivity | lia | simpl; lia |].
  split; [exact Hf|]. split; [exact Hb|].
  exists s'. split; [exact Hs'|exact Hi].
Defined.

Lemma reachable_keep1 (d : RegisterDescriptor.t) (s : RegisterStore.t) :
  RegisterDescriptor.keep d = 1 ->
  RegisterStore.reachable d s ->
  exists ts ws,
    s = {| RegisterStore.desc := d;
           RegisterStore.reg_addr := RegisterDescriptor.begin d;
           RegisterStore.history := [Register.mk d ts ws];
           RegisterStore.idx := 0 |}.
Proof.
  intros Hk.
  induction 1 as [|s s' _ IH Hs|s w s' _ IH Hs|s w s' _ IH Hs].
  - exists 0, (replicate (Z.to_nat (RegisterDescriptor.length d)) 0).
    unfold RegisterStore.make. by rewrite Hk.
  - destruct IH as (ts & ws & ->). injection Hs as <-. by exists ts, ws.
  - destruct IH as (ts & ws & ->). injection Hs as <-.
    by exists (fst w), (snd w).
  - destruct IH as (ts & ws & ->). injection Hs as <-.
    by exists (fst w), (snd w).
Qed.

(** C10.  A store built from a descriptor with [keep == 1] keeps its cursor
    at 0 through any number of advances and writes: [front()] and [back()]
    designate the same, single slot, so what was written last is what the
    next write replaces. *)
Theorem RegisterStore_keep1_front_is_back
    (d : RegisterDescriptor.t) (s : RegisterStore.t) :
  RegisterDescriptor.keep d = 1 ->
  RegisterStore.reachable d s ->
  RegisterStore.idx s = 0
  /\ RegisterStore.size s = 1
  /\ RegisterStore.front_slot s = RegisterStore.back_slot s
  /\ RegisterStore.front s = RegisterStore.back s
  /\ is_Some (RegisterStore.front s)
  /\ (forall w s', RegisterStore.write_front s w = Some s' ->
        RegisterStore.back s' = Some (Register.mk d (fst w) (snd w))
        /\ RegisterStore.front s' = RegisterStore.back s').
Proof.
  intros Hk Hr. destruct (reachable_keep1 d s Hk Hr) as (ts & ws & ->).
  split; [done|]. split; [done|]. split; [done|]. split; [done|].
  split; [by eexists|].
  intros w s' [= <-]. by split.
Qed.

Lemma RegisterStore_keep1_witness :
  RegisterStore.reachable (example_descriptor 1) example_store1
  /\ RegisterStore.idx example_store1 = 0
  /\ RegisterStore.front example_store1 = RegisterStore.back example_store1.
Proof.
  assert (Hr : RegisterStore.reachable (example_descriptor 1) example_store1).
  { apply (RegisterStore.reach_incr _ example_store1 example_store1);
      [|reflexivity].
    apply (RegisterStore.reach_write_front _
             (RegisterStore.make (example_descriptor 1)) (9, [3]));
      [|reflexivity].
    apply RegisterStore.reach_make. }
  destruct (RegisterStore_keep1_front_is_back (example_descriptor 1)
              example_store1 eq_refl Hr)
    as (Hi & _ & _ & Hfb & _).
  split; [exact Hr|]. split; [exact Hi|exact Hfb].
Defined.

(** ** The monad *)

Lemma bind_inr {S A B} (c : M S A) (f : A -> M S B) (s s' : S) (a : A) :
  c s = (inr a, s') -> (c ≫= f) s = f a s'.
Proof. intros Hc. unfold mbind, M_bind. by rewrite Hc. Qed.

Lemma bind_inl {S A B} (c : M S A) (f : A -> M S B) (s s' : S) (e : exn) :
  c s = (inl e, s') -> (c ≫= f) s = (inl e, s').
Proof. intros Hc. unfold mbind, M_bind. by rewrite Hc. Qed.

Lemma check_value_eq {S} (what : string) (v e : Z) (s : S) :
  uint32 v = uint32 e -> check_value what v e s = (inr tt, s).
Proof.
  intros Heq. unfold check_value. rewrite Heq, Z.eqb_refl. reflexivity.
Qed.

Lemma check_value_neq {S} (what : string) (v e : Z) (s : S) :
  uint32 v <> uint32 e ->
  check_value what v e s = (inl (bad_resp_error what (uint32 e) (uint32 v)), s).
Proof.
  intros Hne. unfold check_value.
  destruct (Z.eqb_spec (uint32 v) (uint32 e)); [done|reflexivity].
Qed.

(** ** Bytes *)

Lemma Z_of_byte_range (b : byte) : 0 <= Z_of_byte b < 256.
Proof.
  unfold Z_of_byte. pose proof (Byte.to_N_bounded b). lia.
Qed.

Lemma uint32_small (z : Z) : 0 <= z < 2 ^ 32 -> uint32 z = z.
Proof. intros Hz. unfold uint32. apply Z.mod_small; lia. Qed.

Lemma uint8_small (z : Z) : 0 <= z < 2 ^ 8 -> uint8 z = z.
Proof. intros Hz. unfold uint8. apply Z.mod_small; lia. Qed.

(** ** Bytes in use *)

Lemma in_use_set_len (m : Msg.t) (pre post : list byte) :
  in_use m (pre ++ post) -> in_use (Msg.set_len (length pre) m) pre.
Proof.
  intros [_ Ht]. split; [done|]. simpl.
  rewrite <- (take_app_length pre post) at 2.
  rewrite <- Ht, take_take. f_equal. rewrite length_app. lia.
Qed.

Lemma in_use_lookup (m : Msg.t) (pre post : list byte) (b : byte) :
  in_use m (pre ++ b :: post) -> Msg.raw m !! length pre = Some b.
Proof.
  intros [_ Ht].
  rewrite <- (lookup_take_lt _ (length (pre ++ b :: post)))
    by (rewrite length_app; simpl; lia).
  rewrite Ht. by rewrite list_lookup_middle.
Qed.

Section PopFacts.
Context {Obj : Type} `{IsMsg Obj}.

Lemma msg_chop (n : nat) (s : Obj) : msg (chop n s) = Msg.set_len n (msg s).
Proof. apply msg_with_msg. Qed.

Lemma chop_chop (n k : nat) (s : Obj) : chop n (chop k s) = chop n s.
Proof.
  unfold chop. rewrite msg_with_msg, with_msg_with_msg. reflexivity.
Qed.

Lemma chop_len (s : Obj) : chop (Msg.len (msg s)) s = s.
Proof.
  unfold chop.
  replace (Msg.set_len (Msg.len (msg s)) (msg s)) with (msg s)
    by (by destruct (msg s)).
  apply with_msg_msg.
Qed.

Lemma in_use_chop (s : Obj) (bs pre post : list byte) :
  in_use (msg s) bs -> bs = pre ++ post ->
  in_use (msg (chop (length pre) s)) pre.
Proof. intros Hu ->. rewrite msg_chop. by eapply in_use_set_len. Qed.

Lemma pop_u8_snoc (s : Obj) (bs pre : list byte) (b : byte) :
  in_use (msg s) bs -> bs = pre ++ [b] ->
  pop_u8 s = (inr (Z_of_byte b), chop (length pre) s).
Proof.
  intros Hu ->. unfold pop_u8.
  pose proof (in_use_lookup _ _ _ _ Hu) as Hb.
  destruct Hu as [Hl _]. rewrite length_app in Hl. simpl in Hl.
  replace (Msg.len (msg s)) with (S (length pre)) by lia.
  by rewrite Hb.
Qed.

Lemma pop_u16_snoc (s : Obj) (bs pre : list byte) (hi lo : byte) :
  in_use (msg s) bs -> bs = pre ++ [hi; lo] ->
  pop_u16 s = (inr (Z_of_byte hi * 256 + Z_of_byte lo), chop (length pre) s).
Proof.
  intros Hu ->. unfold pop_u16.
  erewrite bind_inr
    by (by apply (pop_u8_snoc _ _ (pre ++ [hi]) lo Hu); rewrite <- app_assoc).
  apply (in_use_chop _ _ (pre ++ [hi]) [lo]) in Hu;
    [|by rewrite <- app_assoc].
  erewrite bind_inr by (by apply (pop_u8_snoc _ _ pre hi Hu)).
  rewrite chop_chop. reflexivity.
Qed.
End PopFacts.

(** ** Words *)

Lemma list_split_last2 {A} (l : list A) (k : nat) :
  length l = (2 * S k)%nat ->
  exists l' x y, l = l' ++ [x; y] /\ length l' = (2 * k)%nat.
Proof.
  intros Hl. exists (take (2 * k) l).
  destruct (drop (2 * k) l) as [|x [|y [|z t]]] eqn:Hd;
    apply (f_equal length) in Hd as Hd'; rewrite length_drop in Hd';
    simpl in Hd'; try lia.
  exists x, y. split.
  - by rewrite <- Hd, take_drop.
  - rewrite length_take. lia.
Qed.

Lemma words_of_app (n : nat) (bs cs : list byte) :
  length bs = (2 * n)%nat -> words_of (bs ++ cs) = words_of bs ++ words_of cs.
Proof.
  revert bs. induction n as [|n IH]; intros bs Hl.
  - destruct bs; [done|simpl in Hl; lia].
  - destruct bs as [|hi [|lo bs]]; simpl in Hl; try lia.
    simpl. f_equal. apply IH. lia.
Qed.

Lemma length_words_of (n : nat) (bs : list byte) :
  length bs = (2 * n)%nat -> length (words_of bs) = n.
Proof.
  revert bs. induction n as [|n IH]; intros bs Hl.
  - by destruct bs.
  - destruct bs as [|hi [|lo bs]]; simpl in Hl; try lia.
    simpl. f_equal. apply IH. lia.
Qed.

Section PopWords.
Context {Obj : Type} `{IsMsg Obj}.

Lemma pop_u16s_app (n : nat) (s : Obj) (bs pre ws : list byte) :
  in_use (msg s) bs -> bs = pre ++ ws ->
  length ws = (2 * n)%nat ->
  pop_u16s n s = (inr (words_of ws), chop (length pre) s).
Proof.
  revert s bs ws. induction n as [|n IH]; intros s bs ws Hu -> Hl.
  - destruct ws; [|simpl in Hl; lia].
    rewrite app_nil_r in Hu. destruct Hu as [<- _].
    by rewrite chop_len.
  - destruct (list_split_last2 ws n Hl) as (ws' & hi & lo & -> & Hl').
    cbn [pop_u16s].
    erewrite bind_inr
      by (by apply (pop_u16_snoc _ _ (pre ++ ws') hi lo Hu);
          rewrite <- app_assoc).
    apply (in_use_chop _ _ (pre ++ ws') [hi; lo]) in Hu;
      [|by rewrite <- app_assoc].
    erewrite bind_inr by (by apply (IH _ _ ws' Hu)).
    rewrite chop_chop, (words_of_app n) by done.
    reflexivity.
Qed.

Lemma validate_inv (s : Obj) :
  passes_validate s ->
  exists body lo hi,
    Msg.raw (msg s) = body ++ [lo; hi]
    /\ Msg.len (msg s) = length (Msg.raw (msg s))
    /\ crc16 body = Z_of_byte lo + 256 * Z_of_byte hi
    /\ validate s = (inr tt, chop (length body) s)
    /\ in_use (msg (chop (length body) s)) body.
Proof.
  unfold passes_validate, outcome, validate.
  destruct (Nat.eqb_spec (length (Msg.raw (msg s))) (Msg.len (msg s)))
    as [Hlen|]; simpl; [|done].
  destruct (Msg.len (msg s)) as [|[|n]] eqn:Hn; [done|done|].
  destruct (Msg.raw (msg s) !! n) as [lo|] eqn:Hlo; [|done].
  destruct (Msg.raw (msg s) !! S n) as [hi|] eqn:Hhi; [|done].
  destruct (Z.eqb_spec (crc16 (take n (Msg.raw (msg s))))
              (Z_of_byte lo + 256 * Z_of_byte hi)) as [Hcrc|]; [|done].
  intros _.
  assert (Hraw : Msg.raw (msg s) = take n (Msg.raw (msg s)) ++ [lo; hi]).
  { rewrite <- (take_drop n (Msg.raw (msg s))) at 1. f_equal.
    destruct (drop n (Msg.raw (msg s))) as [|x [|y [|z t]]] eqn:Hd;
      apply (f_equal length) in Hd as Hd'; rewrite length_drop in Hd';
      simpl in Hd'; try lia.
    rewrite <- (Nat.add_0_r n), <- lookup_drop, Hd in Hlo.
    replace (S n) with (n + 1)%nat in Hhi by lia.
    rewrite <- lookup_drop, Hd in Hhi. simpl in Hlo, Hhi. congruence. }
  assert (Hbl : length (take n (Msg.raw (msg s))) = n)
    by (rewrite length_take; lia).
  exists (take n (Msg.raw (msg s))), lo, hi.
  rewrite Hbl. repeat split; try done.
  - rewrite msg_chop. simpl. by rewrite Hbl.
  - rewrite msg_chop. simpl. by rewrite Hbl.
Qed.
End PopWords.

Lemma bind_modify {S B} (g : S -> S) (f : unit -> M S B) (s : S) :
  (modify g ≫= f) s = f tt (g s).
Proof. reflexivity. Qed.

Lemma bind_gets {S A B} (g : S -> A) (f : A -> M S B) (s : S) :
  (gets g ≫= f) s = f (g s) s.
Proof. reflexivity. Qed.

Lemma bind_get_len {Obj B} `{IsMsg Obj} (f : nat -> M Obj B) (s : Obj) :
  (get_len ≫= f) s = f (Msg.len (msg s)) s.
Proof. reflexivity. Qed.

Lemma bind_put_len {Obj B} `{IsMsg Obj} (n : nat) (f : unit -> M Obj B)
    (s : Obj) :
  (put_len n ≫= f) s = f tt (chop n s).
Proof. reflexivity. Qed.

Lemma list_split_first3 {A} (l : list A) (k : nat) :
  length l = (3 + k)%nat ->
  exists a b c l', l = [a; b; c] ++ l' /\ length l' = k.
Proof.
  destruct l as [|a [|b [|c l']]]; simpl; intros Hl; try lia.
  exists a, b, c, l'. split; [done|lia].
Qed.

(** ** Read Holding Registers *)

Lemma ReadHoldingRegistersResp_decode_run
    (r : ReadHoldingRegistersResp.t) (a f bc lo hi : byte) (data : list byte) :
  passes_validate r ->
  Msg.raw (msg r) = [a; f; bc] ++ data ++ [lo; hi] ->
  length data = (2 * length (ReadHoldingRegistersResp.regs r))%nat ->
  let r' :=
    {| ReadHoldingRegistersResp.base := Msg.set_len 0 (msg r);
       ReadHoldingRegistersResp.regs := words_of data;
       ReadHoldingRegistersResp.byte_count := Z_of_byte bc;
       ReadHoldingRegistersResp.function := Z_of_byte f;
       ReadHoldingRegistersResp.dev_addr := Z_of_byte a |} in
  ReadHoldingRegistersResp.decode r =
    (check_value "function" (Z_of_byte f)
       ReadHoldingRegistersResp.expected_function;;
     check_value "byte_count" (Z_of_byte bc)
       (Z.of_nat (length (words_of data)) * 2)) r'.
Proof.
  intros Hv Hraw Hlen r'.
  destruct (validate_inv r Hv)
    as (body & lo' & hi' & Hraw' & _ & _ & Hval & Hu).
  assert (body = [a; f; bc] ++ data) as ->.
  { rewrite Hraw in Hraw'.
    change ([a; f; bc] ++ data ++ [lo; hi])
      with (([a; f; bc] ++ data) ++ [lo; hi]) in Hraw'.
    by apply app_inj_2 in Hraw' as [? _]. }
  unfold ReadHoldingRegistersResp.decode.
  erewrite bind_inr by exact Hval. cbv beta.
  rewrite bind_gets. cbv beta.
  erewrite bind_inr
    by (eapply (pop_u16s_app _ _ _ [a; f; bc] data); [exact Hu|done|done]).
  cbv beta. rewrite bind_modify.
  apply (in_use_chop _ _ [a; f; bc] data) in Hu; [|done].
  erewrite bind_inr by (eapply (pop_u8_snoc _ _ [a; f] bc); [exact Hu|done]).
  cbv beta. rewrite bind_modify.
  apply (in_use_chop _ _ [a; f] [bc]) in Hu; [|done].
  erewrite bind_inr by (eapply (pop_u8_snoc _ _ [a] f); [exact Hu|done]).
  cbv beta. rewrite bind_modify.
  apply (in_use_chop _ _ [a] [f]) in Hu; [|done].
  erewrite bind_inr by (eapply (pop_u8_snoc _ _ [] a); [exact Hu|done]).
  cbv beta. rewrite bind_modify.
  unfold mbind, M_bind, check_value at 1 3.
  destruct (negb _); reflexivity.
Qed.

(** ** Read File Record *)


Lemma first_mismatch_app (cs ds : list (string * Z * Z)) :
  first_mismatch (cs ++ ds) =
    match first_mismatch cs with
    | Some e => Some e
    | None => first_mismatch ds
    end.
Proof.
  induction cs as [|[[what v] e] cs IH]; [done|]. simpl.
  by destruct (_ =? _).
Qed.

Lemma u8_at_app_l (bs cs : list byte) (i : nat) :
  (i < length bs)%nat -> u8_at (bs ++ cs) i = u8_at bs i.
Proof. intros Hi. unfold u8_at. by rewrite lookup_app_l. Qed.

Lemma record_fields_app (ns ms : list nat) (bs cs : list byte) :
  length bs = sum_list_with (fun n => 2 + 2 * n)%nat ns ->
  record_fields (ns ++ ms) (bs ++ cs)
  = record_fields ns bs ++ record_fields ms cs.
Proof.
  revert bs. induction ns as [|n ns IH]; intros bs Hl;
    cbn [sum_list_with] in Hl.
  - by destruct bs.
  - cbn [record_fields app].
    rewrite (u8_at_app_l bs cs 0), (u8_at_app_l bs cs 1) by lia. f_equal.
    + do 2 f_equal. rewrite drop_app_le by lia. apply take_app_le.
      rewrite length_drop. lia.
    + rewrite drop_app_le by lia. apply IH. rewrite length_drop. lia.
Qed.

Lemma expected_len_sum (rec : list FileRecord.t) :
  ReadFileRecordResp.expected_len rec =
    (5 + sum_list_with (fun r => 2 + 2 * record_size r) rec)%nat.
Proof.
  unfold ReadFileRecordResp.expected_len. generalize 5%nat.
  induction rec as [|r rec IH]; intros n;
    cbn [fold_left sum_list_with]; [lia|].
  rewrite IH. unfold record_size. lia.
Qed.

Lemma sum_list_with_map {A} (f : nat -> nat) (g : A -> nat) (l : list A) :
  sum_list_with f (map g l) = sum_list_with (fun x => f (g x)) l.
Proof.
  induction l as [|x l IH]; [done|].
  cbn [map sum_list_with]. by rewrite IH.
Qed.

Lemma length_record_fields (ns : list nat) (bs : list byte) :
  length (record_fields ns bs) = length ns.
Proof.
  revert bs. induction ns as [|n ns IH]; intros bs; [done|].
  cbn [record_fields length]. by rewrite IH.
Qed.

Lemma decode_records_run (k : nat) :
  forall (s : ReadFileRecordResp.t) (pre body : list byte),
    (k <= length (ReadFileRecordResp.records s))%nat ->
    in_use (msg s) (pre ++ body) ->
    length body =
      sum_list_with (fun n => 2 + 2 * n)%nat
        (map record_size (take k (ReadFileRecordResp.records s))) ->
    let fields :=
      record_fields (map record_size (take k (ReadFileRecordResp.records s)))
        body in
    let verdict := first_mismatch (flat_map record_checks (reverse fields)) in
    exists s',
      ReadFileRecordResp.decode_records k s = (raised verdict, s')
      /\ (verdict = None ->
          s' = {| ReadFileRecordResp.base := Msg.set_len (length pre) (msg s);
                  ReadFileRecordResp.dev_addr := ReadFileRecordResp.dev_addr s;
                  ReadFileRecordResp.function := ReadFileRecordResp.function s;
                  ReadFileRecordResp.records :=
                    with_fields fields (take k (ReadFileRecordResp.records s))
                    ++ drop k (ReadFileRecordResp.records s) |}).
Proof.
  induction k as [|k IH]; intros s pre body Hk Hu Hl fields verdict.
  - subst fields verdict. rewrite take_0 in *. cbn in Hl.
    destruct body; [|done]. rewrite app_nil_r in Hu.
    exists s. split; [done|]. intros _. cbn.
    destruct Hu as [<- _]. rewrite drop_0.
    destruct s as [[]]; reflexivity.
  - destruct (lookup_lt_is_Some_2 (ReadFileRecordResp.records s) k)
      as [rec Hrec]; [lia|].
    subst fields verdict.
    rewrite (take_S_r _ _ _ Hrec) in *.
    rewrite !map_app in *. rewrite sum_list_with_app in Hl.
    cbn [map sum_list_with] in *.
    set (recs := ReadFileRecordResp.records s) in *.
    set (sizes := map record_size (take k recs)) in *.
    set (n := record_size rec) in *.
    assert (Hbody : body = take (length body - (2 + 2 * n)) body
                           ++ drop (length body - (2 + 2 * n)) body)
      by (by rewrite take_drop).
    set (body_k := take (length body - (2 + 2 * n)) body) in *.
    assert (Hlk : length body_k = sum_list_with (fun n => 2 + 2 * n)%nat sizes)
      by (subst body_k; rewrite length_take; lia).
    destruct (drop (length body - (2 + 2 * n)) body)
      as [|flen [|ref data]] eqn:Hd;
      apply (f_equal length) in Hd as Hd'; rewrite length_drop in Hd';
      cbn [length] in Hd'; try lia.
    assert (Hdl : length data = (2 * n)%nat) by lia.
    clearbody body_k. subst body. clear Hd Hd'.
    rewrite (record_fields_app sizes [n] body_k (flen :: ref :: data) Hlk).
    cbn [record_fields]. cbn [drop].
    rewrite (take_ge data) by lia.
    rewrite reverse_app. cbn [reverse rev_append app flat_map record_checks].
    change (u8_at (flen :: ref :: data) 0) with (Z_of_byte flen).
    change (u8_at (flen :: ref :: data) 1) with (Z_of_byte ref).
    (* the run of the loop body *)
    cbn [ReadFileRecordResp.decode_records].
    rewrite bind_gets. cbv beta. fold recs. rewrite Hrec.
    erewrite bind_inr
      by (eapply (pop_u16s_app _ _ _ (pre ++ body_k ++ [flen; ref]) data);
          [exact Hu|by rewrite <- !app_assoc|exact Hdl]).
    cbv beta. rewrite bind_modify.
    apply (in_use_chop _ _ (pre ++ body_k ++ [flen; ref]) data) in Hu;
      [|by rewrite <- !app_assoc].
    erewrite bind_inr
      by (eapply (pop_u8_snoc _ _ (pre ++ body_k ++ [flen]) ref);
          [exact Hu|by rewrite <- !app_assoc]).
    cbv beta.
    apply (in_use_chop _ _ (pre ++ body_k ++ [flen]) [ref]) in Hu;
      [|by rewrite <- !app_assoc].
    erewrite bind_inr
      by (eapply (pop_u8_snoc _ _ (pre ++ body_k) flen);
          [exact Hu|by rewrite <- !app_assoc]).
    cbv beta.
    apply (in_use_chop _ _ (pre ++ body_k) [flen]) in Hu;
      [|by rewrite <- !app_assoc].
    rewrite (length_words_of n data Hdl).
    cbn [first_mismatch].
    destruct (Z.eqb_spec (uint32 (Z_of_byte ref)) (uint32 6)) as [Href|Href].
    2:{ eexists. split; [|discriminate].
        erewrite bind_inl by (by apply check_value_neq). reflexivity. }
    erewrite bind_inr by (by apply check_value_eq). cbv beta.
    destruct (Z.eqb_spec (uint32 (Z_of_byte flen))
                (uint32 (1 + Z.of_nat n * 2))) as [Hflen|Hflen].
    2:{ eexists. split; [|discriminate].
        erewrite bind_inl by (by apply check_value_neq). reflexivity. }
    erewrite bind_inr by (by apply check_value_eq). cbv beta.
    match goal with |- context [ReadFileRecordResp.decode_records k ?st] =>
      set (s2 := st) in * end.
    assert (Hrecs2 : ReadFileRecordResp.records s2
                     = <[k := FileRecord.set_data (words_of data) rec]> recs)
      by reflexivity.
    destruct (IH s2 pre body_k) as (s' & Hrun & Hs').
    { rewrite Hrecs2, length_insert. lia. }
    { exact Hu. }
    { rewrite Hrecs2, take_insert_ge by lia. exact Hlk. }
    rewrite Hrecs2, take_insert_ge in Hrun, Hs' by lia.
    fold sizes in Hrun, Hs'.
    exists s'. split; [exact Hrun|].
    intros Hnone. rewrite (Hs' Hnone). f_equal.
    unfold with_fields. rewrite zip_with_app
      by (by rewrite length_record_fields; unfold sizes; rewrite length_map).
    rewrite <- app_assoc. f_equal.
    rewrite drop_insert_ge, Nat.sub_diag by lia.
    rewrite (drop_S _ _ _ Hrec). reflexivity.
Qed.

Lemma record_fields_tail (ns : list nat) (bs cs : list byte) :
  length bs = sum_list_with (fun n => 2 + 2 * n)%nat ns ->
  record_fields ns (bs ++ cs) = record_fields ns bs.
Proof.
  intros Hl. pose proof (record_fields_app ns [] bs cs Hl) as Happ.
  rewrite app_nil_r in Happ. rewrite Happ. cbn [record_fields].
  by rewrite app_nil_r.
Qed.

Lemma ReadFileRecordResp_decode_run (r : ReadFileRecordResp.t) :
  passes_validate r ->
  Msg.len (msg r) =
    ReadFileRecordResp.expected_len (ReadFileRecordResp.records r) ->
  let rx := Msg.raw (msg r) in
  let recs := ReadFileRecordResp.records r in
  let verdict :=
    first_mismatch
      (ReadFileRecordResp_checks_spec (ReadFileRecordResp.dev_addr r)
         recs rx) in
  outcome ReadFileRecordResp.decode r = raised verdict
  /\ (verdict = None ->
      after ReadFileRecordResp.decode r =
        {| ReadFileRecordResp.base := Msg.set_len 0 (msg r);
           ReadFileRecordResp.dev_addr := ReadFileRecordResp.dev_addr r;
           ReadFileRecordResp.function := u8_at rx 1;
           ReadFileRecordResp.records :=
             with_fields (record_fields (map record_size recs) (drop 3 rx))
               recs |}).
Proof.
  intros Hv Hlen rx recs verdict.
  destruct (validate_inv r Hv)
    as (body & lo & hi & Hraw & Hlr & _ & Hval & Hu).
  rewrite expected_len_sum in Hlen. fold recs in Hlen.
  assert (Hbl : length body
      = (3 + sum_list_with (fun x => 2 + 2 * record_size x) recs)%nat).
  { rewrite Hlr, Hraw, length_app in Hlen. cbn [length] in Hlen. lia. }
  destruct (list_split_first3 body _ Hbl) as (a & f & dl & rb & -> & Hrb).
  assert (Hrx : rx = [a; f; dl] ++ rb ++ [lo; hi])
    by (subst rx; rewrite Hraw; by rewrite <- app_assoc).
  clearbody rx. subst rx.
  subst verdict. unfold ReadFileRecordResp_checks_spec.
  cbn [drop app].
  change (u8_at (a :: f :: dl :: rb ++ [lo; hi]) 0) with (Z_of_byte a).
  change (u8_at (a :: f :: dl :: rb ++ [lo; hi]) 1) with (Z_of_byte f).
  change (u8_at (a :: f :: dl :: rb ++ [lo; hi]) 2) with (Z_of_byte dl).
  rewrite drop_0.
  rewrite (record_fields_tail (map record_size recs) rb [lo; hi])
    by (by rewrite sum_list_with_map).
  replace (length (a :: f :: dl :: rb ++ [lo; hi]) - 2)%nat
    with (length ([a; f; dl] ++ rb))
    by (cbn [length app]; rewrite !length_app; cbn [length]; lia).
  rewrite first_mismatch_app.
  (* the run *)
  unfold outcome, after, ReadFileRecordResp.decode.
  erewrite bind_inr by exact Hval. cbv beta.
  rewrite bind_get_len. cbv beta zeta.
  rewrite msg_chop. cbn [Msg.len Msg.set_len].
  rewrite bind_gets. cbv beta.
  destruct (decode_records_run
              (length (ReadFileRecordResp.records
                         (chop (length ([a; f; dl] ++ rb)) r)))
              (chop (length ([a; f; dl] ++ rb)) r) [a; f; dl] rb)
    as (s' & Hrun & Hs').
  { done. }
  { exact Hu. }
  { rewrite take_ge by done. by rewrite sum_list_with_map. }
  rewrite take_ge in Hrun, Hs' by done.
  change (ReadFileRecordResp.records (chop (length ([a; f; dl] ++ rb)) r))
    with recs in Hrun, Hs'.
  destruct (first_mismatch _) as [e|] eqn:Hfm.
  { erewrite bind_inl by exact Hrun. split; [done|discriminate]. }
  erewrite bind_inr by exact Hrun. cbv beta.
  specialize (Hs' eq_refl).
  rewrite drop_ge, app_nil_r in Hs' by done.
  apply (in_use_chop _ _ [a; f; dl] rb) in Hu; [|done].
  rewrite chop_chop in Hu.
  assert (Hu' : in_use (msg s') [a; f; dl]) by (by rewrite Hs').
  clear Hu.
  erewrite bind_inr by (eapply (pop_u8_snoc _ _ [a; f] dl); [exact Hu'|done]).
  cbv beta.
  apply (in_use_chop _ _ [a; f] [dl]) in Hu'; [|done].
  erewrite bind_inr by (eapply (pop_u8_snoc _ _ [a] f); [exact Hu'|done]).
  cbv beta. rewrite bind_modify.
  apply (in_use_chop _ _ [a] [f]) in Hu'; [|done].
  erewrite bind_inr by (eapply (pop_u8_snoc _ _ [] a); [exact Hu'|done]).
  cbv beta.
  cbn [first_mismatch].
  subst s'.
  match goal with |- context [mbind _ _ ?st] =>
    change st with
      {| ReadFileRecordResp.base := Msg.set_len 0 (msg r);
         ReadFileRecordResp.dev_addr := ReadFileRecordResp.dev_addr r;
         ReadFileRecordResp.function := Z_of_byte f;
         ReadFileRecordResp.records :=
           with_fields (record_fields (map record_size recs) rb) recs |}
  end.
  destruct (Z.eqb_spec (uint32 (Z_of_byte dl))
              (uint32 (uint8 (Z.of_nat (length ([a; f; dl] ++ rb)) - 3))))
    as [Hdl|Hdl].
  2:{ erewrite bind_inl by (by apply check_value_neq).
      split; [done|discriminate]. }
  erewrite bind_inr by (by apply check_value_eq). cbv beta.
  unfold ReadFileRecordResp.expected_function.
  destruct (Z.eqb_spec (uint32 (Z_of_byte f)) (uint32 READ_FILE_RECORD))
    as [Hf|Hf].
  2:{ erewrite bind_inl by (by apply check_value_neq).
      split; [done|discriminate]. }
  erewrite bind_inr by (by apply check_value_eq). cbv beta.
  rewrite bind_gets. cbv beta. cbn [ReadFileRecordResp.dev_addr].
  destruct (Z.eqb_spec (uint32 (Z_of_byte a))
              (uint32 (ReadFileRecordResp.dev_addr r))) as [Ha|Ha].
  2:{ erewrite bind_inl by (by apply check_value_neq).
      split; [done|discriminate]. }
  erewrite bind_inr by (by apply check_value_eq). cbv beta.
  rewrite bind_get_len. cbv beta.
  split; reflexivity.
Qed.

(** ** Write Multiple Registers *)

Lemma WriteMultipleRegistersResp_decode_run
    (r : WriteMultipleRegistersResp.t) (a f oh ol ch cl lo hi : byte) :
  passes_validate r ->
  Msg.raw (msg r) = [a; f; oh; ol; ch; cl; lo; hi] ->
  let off := Z_of_byte oh * 256 + Z_of_byte ol in
  let cnt := Z_of_byte ch * 256 + Z_of_byte cl in
  let r' :=
    WriteMultipleRegistersResp.set_popped cnt off (Z_of_byte f) (Z_of_byte a)
      (chop 0 r) in
  WriteMultipleRegistersResp.decode r =
    (check_value "dev_addr" (Z_of_byte a)
       (WriteMultipleRegistersResp.expected_dev_addr r);;
     check_value "function" (Z_of_byte f)
       WriteMultipleRegistersResp.expected_function;;
     check_value "starting_addr" off
       (WriteMultipleRegistersResp.expected_starting_addr r);;
     check_value "reg_count" cnt
       (WriteMultipleRegistersResp.expected_reg_count r)) r'.
Proof.
  intros Hv Hraw off cnt r'.
  destruct (validate_inv r Hv)
    as (body & lo' & hi' & Hraw' & _ & _ & Hval & Hu).
  assert (body = [a; f; oh; ol; ch; cl]) as ->.
  { rewrite Hraw in Hraw'.
    change [a; f; oh; ol; ch; cl; lo; hi]
      with ([a; f; oh; ol; ch; cl] ++ [lo; hi]) in Hraw'.
    by apply app_inj_2 in Hraw' as [? _]. }
  unfold WriteMultipleRegistersResp.decode.
  erewrite bind_inr by exact Hval. cbv beta.
  erewrite bind_inr
    by (eapply (pop_u16_snoc _ _ [a; f; oh; ol] ch cl); [exact Hu|done]).
  cbv beta.
  apply (in_use_chop _ _ [a; f; oh; ol] [ch; cl]) in Hu; [|done].
  erewrite bind_inr
    by (eapply (pop_u16_snoc _ _ [a; f] oh ol); [exact Hu|done]).
  cbv beta.
  apply (in_use_chop _ _ [a; f] [oh; ol]) in Hu; [|done].
  erewrite bind_inr by (eapply (pop_u8_snoc _ _ [a] f); [exact Hu|done]).
  cbv beta.
  apply (in_use_chop _ _ [a] [f]) in Hu; [|done].
  erewrite bind_inr by (eapply (pop_u8_snoc _ _ [] a); [exact Hu|done]).
  cbv beta. rewrite bind_modify, bind_gets. cbv beta.
  reflexivity.
Qed.

Section PushFacts.
Context {Obj : Type} `{IsMsg Obj}.

Lemma written_stored (pre post : list byte) (s : Obj) :
  written (stored pre post s) pre post.
Proof. unfold written, stored. by rewrite msg_with_msg. Qed.

Lemma stored_stored (pre post pre' post' : list byte) (s : Obj) :
  stored pre post (stored pre' post' s) = stored pre post s.
Proof. unfold stored. by rewrite msg_with_msg, with_msg_with_msg. Qed.

Lemma push_u8_run (s : Obj) (pre post : list byte) (x : byte) (d : Z) :
  written s pre (x :: post) ->
  push_u8 d s = (inr tt, stored (pre ++ [byte_of_Z d]) post s).
Proof.
  intros [Hraw Hlen]. unfold push_u8, stored.
  rewrite Hlen, Hraw.
  destruct (decide _) as [_|Hn];
    [|rewrite length_app in Hn; simpl in Hn; lia].
  do 2 f_equal. unfold Msg.set_len, Msg.set_raw; simpl. f_equal.
  - rewrite <- (Nat.add_0_r (length pre)), insert_app_r.
    by rewrite <- app_assoc.
  - rewrite length_app. simpl. lia.
Qed.

Lemma push_u16_run (s : Obj) (pre post : list byte) (x y : byte) (d : Z) :
  written s pre (x :: y :: post) ->
  push_u16 d s =
    (inr tt,
     stored (pre ++ [byte_of_Z (uint16 d / 256); byte_of_Z (uint16 d mod 256)])
       post s).
Proof.
  intros Hw. unfold push_u16.
  erewrite bind_inr by (by eapply push_u8_run). cbv beta.
  erewrite push_u8_run by apply written_stored.
  by rewrite stored_stored, <- app_assoc.
Qed.
End PushFacts.

Lemma bytes_stored {Obj} `{IsMsg Obj} (pre post : list byte) (s : Obj) :
  Msg.bytes (msg (stored pre post s)) = pre.
Proof.
  unfold stored, Msg.bytes. rewrite msg_with_msg. simpl.
  apply take_app_length.
Qed.

Lemma finalize_run {Obj} `{IsMsg Obj} (s : Obj) (pre post : list byte)
    (x y : byte) :
  written s pre (x :: y :: post) ->
  finalize s = (inr tt, stored (pre ++ crc_bytes pre) post s).
Proof.
  intros Hw. unfold finalize. rewrite bind_gets. cbv beta.
  assert (Hb : Msg.bytes (msg s) = pre).
  { destruct Hw as [Hraw Hlen]. unfold Msg.bytes.
    rewrite Hlen, Hraw. apply take_app_length. }
  rewrite Hb.
  erewrite bind_inr by (by eapply push_u8_run). cbv beta.
  erewrite push_u8_run by apply written_stored.
  by rewrite stored_stored, <- app_assoc.
Qed.

Lemma WriteMultipleRegistersReq_encode_header
    (q : WriteMultipleRegistersReq.t) (hdr padded post : list byte)
    (y0 y1 : byte) (data_len : Z) :
  Msg.raw (msg q) = hdr ++ padded ++ y0 :: y1 :: post ->
  length hdr = 7%nat ->
  data_len = Z.of_nat (length padded) ->
  let q1 := WriteMultipleRegistersReq.set_reg_count (data_len / 2) q in
  let frame := WriteMultipleRegistersReq_header q data_len ++ padded in
  (modify (WriteMultipleRegistersReq.set_reg_count (data_len / 2));;
   put_len 0;;
   r ← gets id;
   push_u8 (WriteMultipleRegistersReq.dev_addr r);;
   push_u8 (WriteMultipleRegistersReq.function r);;
   push_u16 (WriteMultipleRegistersReq.starting_addr r);;
   push_u16 (WriteMultipleRegistersReq.reg_count r);;
   push_u8 data_len;;
   len ← get_len;
   put_len (len + Z.to_nat data_len);;
   finalize) q
  = (inr tt, stored (frame ++ crc_bytes frame) post q1).
Proof.
  intros Hraw Hhdr Hdl q1 frame.
  destruct hdr as [|h0 [|h1 [|h2 [|h3 [|h4 [|h5 [|h6 [|]]]]]]]]; try done.
  rewrite bind_modify. fold q1.
  rewrite bind_put_len. rewrite bind_gets. cbv beta.
  set (q2 := chop 0 q1).
  assert (Hw : written q2 [] ([h0; h1; h2; h3; h4; h5; h6]
                               ++ padded ++ y0 :: y1 :: post)).
  { split; [exact Hraw|done]. }
  cbn [app] in Hw.
  erewrite bind_inr by (by eapply push_u8_run). cbv beta.
  erewrite bind_inr
    by (eapply push_u8_run; apply written_stored). cbv beta.
  rewrite stored_stored.
  erewrite bind_inr
    by (eapply push_u16_run; apply written_stored). cbv beta.
  rewrite stored_stored.
  erewrite bind_inr
    by (eapply push_u16_run; apply written_stored). cbv beta.
  rewrite stored_stored.
  erewrite bind_inr
    by (eapply push_u8_run; apply written_stored). cbv beta.
  rewrite stored_stored.
  rewrite bind_get_len. cbv beta.
  rewrite bind_put_len.
  match goal with |- finalize ?st = _ =>
    assert (Hw' : written st frame (y0 :: y1 :: post)) end.
  { split.
    - unfold stored. rewrite !msg_with_msg. simpl.
      subst frame. unfold WriteMultipleRegistersReq_header.
      reflexivity.
    - unfold stored. rewrite !msg_with_msg. simpl.
      subst frame data_len. rewrite Nat2Z.id. lia. }
  rewrite (finalize_run _ _ _ _ _ Hw').
  reflexivity.
Qed.

Lemma WriteMultipleRegistersReq_encode_run
    (q : WriteMultipleRegistersReq.t) (hdr data rest : list byte) :
  Msg.raw (msg q) = hdr ++ data ++ rest ->
  length hdr = 7%nat ->
  Msg.len (msg q) = (7 + length data)%nat ->
  (1 <= length data <= 254)%nat ->
  (3 <= length rest)%nat ->
  let data_len := Z.of_nat (length (padded_data data)) in
  let frame :=
    WriteMultipleRegistersReq_header q data_len ++ padded_data data in
  outcome WriteMultipleRegistersReq.encode q = inr tt
  /\ Msg.bytes (msg (after WriteMultipleRegistersReq.encode q))
     = frame ++ crc_bytes frame
  /\ WriteMultipleRegistersReq.reg_count
       (after WriteMultipleRegistersReq.encode q) = data_len / 2.
Proof.
  intros Hraw Hhdr Hlen Hdata Hrest data_len frame.
  assert (Hrun : exists post,
    WriteMultipleRegistersReq.encode q
    = (inr tt,
       stored (frame ++ crc_bytes frame) post
         (WriteMultipleRegistersReq.set_reg_count (data_len / 2) q))).
  { unfold WriteMultipleRegistersReq.encode.
    rewrite bind_get_len. cbv beta. rewrite Hlen.
    destruct (Nat.leb_spec (7 + length data) 7); [lia|].
    replace (uint8 (Z.of_nat (7 + length data) - 7))
      with (Z.of_nat (length data))
      by (rewrite uint8_small; lia).
    subst frame data_len. unfold padded_data.
    destruct (Z.eqb_spec (Z.of_nat (length data) mod 2) 0) as [Hev|Hodd];
      cbn [negb].
    - destruct rest as [|y0 [|y1 post]]; simpl in Hrest; try lia.
      exists post.
      erewrite bind_inr by reflexivity. cbv beta.
      by apply (WriteMultipleRegistersReq_encode_header q hdr data post y0 y1).
    - destruct rest as [|x [|y0 [|y1 post]]]; simpl in Hrest; try lia.
      exists post.
      assert (Hw : written q (hdr ++ data) (x :: y0 :: y1 :: post)).
      { split; [by rewrite <- app_assoc|rewrite length_app; lia]. }
      erewrite bind_inr.
      2:{ erewrite bind_inr by (by eapply push_u8_run). reflexivity. }
      cbv beta.
      replace (uint8 (Z.of_nat (length data) + 1))
        with (Z.of_nat (length (data ++ [x00])))
        by (rewrite uint8_small, length_app; simpl; lia).
      set (q1 := stored _ _ q).
      pose proof (WriteMultipleRegistersReq_encode_header q1 hdr
                    (data ++ [x00]) post y0 y1
                    (Z.of_nat (length (data ++ [x00])))) as Hh.
      cbv zeta in Hh. rewrite Hh; [reflexivity| |done|done].
      subst q1. unfold stored. rewrite msg_with_msg. simpl.
      by rewrite <- !app_assoc. }
  destruct Hrun as [post Hrun].
  unfold outcome, after. rewrite Hrun. cbn [fst snd].
  split; [done|]. split; [|done].
  apply bytes_stored.
Qed.

(** ** Frames received by a freshly built response *)

Lemma uint32_byte (b : byte) : uint32 (Z_of_byte b) = Z_of_byte b.
Proof. apply uint32_small. pose proof (Z_of_byte_range b). lia. Qed.

Lemma uint8_range (z : Z) : 0 <= uint8 z < 256.
Proof. unfold uint8. apply Z.mod_pos_bound. lia. Qed.

Lemma first_mismatch_is_bad_resp (cs : list (string * Z * Z)) (e : exn) :
  first_mismatch cs = Some e ->
  exists what ev v, e = bad_resp_error what ev v.
Proof.
  induction cs as [|[[what v] ev] cs IH]; [done|]. cbn [first_mismatch].
  destruct (_ =? _); [done|]. intros [= <-]. by eexists _, _, _.
Qed.

Lemma first_mismatch_None (cs : list (string * Z * Z)) :
  first_mismatch cs = None <->
  Forall (fun c => uint32 (snd (fst c)) = uint32 (snd c)) cs.
Proof.
  induction cs as [|[[what v] ev] cs IH]; [by split|].
  cbn [first_mismatch]. rewrite Forall_cons. cbn [fst snd].
  destruct (Z.eqb_spec (uint32 v) (uint32 ev)); [tauto|].
  split; [done|tauto].
Qed.

Lemma ReadHoldingRegistersResp_frame
    (raw_size : nat) (regs : list Z) (resp : ReadHoldingRegistersResp.t)
    (rx : list byte) :
  ReadHoldingRegistersResp.make raw_size regs = inr resp ->
  passes_validate (received rx resp) ->
  ReadHoldingRegistersResp.regs resp = regs
  /\ exists a f bc data lo hi,
       rx = [a; f; bc] ++ data ++ [lo; hi]
       /\ length data = (2 * length regs)%nat.
Proof.
  unfold ReadHoldingRegistersResp.make.
  destruct (length regs =? 0)%nat; [done|]. intros [= <-] Hv.
  split; [done|].
  destruct (validate_inv _ Hv) as (body & lo & hi & Hraw & Hlen & _).
  cbn in Hraw, Hlen. subst rx. rewrite length_app in Hlen. cbn in Hlen.
  destruct (list_split_first3 body (2 * length regs))
    as (a & f & bc & data & -> & Hd); [lia|].
  exists a, f, bc, data, lo, hi. split; [|done]. by rewrite <- app_assoc.
Qed.

(** ** The conformance vectors of the specification

    The CRC and the push order are modelled from the specification; its two
    encoded requests (section 8) are reproduced byte for byte. *)

Example ReadHoldingRegistersReq_encode_vector :
  Msg.bytes (msg (after ReadHoldingRegistersReq.encode
                    (ReadHoldingRegistersReq.make 253 0x11 0x006B 3)))
  = [x11; x03; x00; x6b; x00; x03; x76; x87].
Proof. vm_compute. reflexivity. Qed.

Example WriteSingleRegisterReq_encode_vector :
  Msg.bytes (msg (after WriteSingleRegisterReq.encode
                    (WriteSingleRegisterReq.make 253 0x11 0x0001 0x0003)))
  = [x11; x06; x00; x01; x00; x03; x9a; x9b].
Proof. vm_compute. reflexivity. Qed.

(** ** Theorems of the command set *)

(** C7.  A Read Holding Registers response cannot be built for no register:
    the constructor throws an underflow error.  For a non-empty vector of
    [count] registers it succeeds and records the expected frame length
    [5 + 2 * count]. *)
Theorem ReadHoldingRegistersResp_make_length (raw_size : nat) :
  ReadHoldingRegistersResp.make raw_size []
    = inl (underflow_error "Response too small")
  /\ forall r : list Z,
       r <> [] ->
       exists resp,
         ReadHoldingRegistersResp.make raw_size r = inr resp
         /\ Msg.len (msg resp) = (5 + 2 * length r)%nat
         /\ ReadHoldingRegistersResp.regs resp = r.
Proof.
  split; [reflexivity|].
  intros [|x r] Hr; [done|]. eexists. split; [reflexivity|]. by split.
Qed.

Lemma ReadHoldingRegistersResp_make_witness :
  exists resp,
    ReadHoldingRegistersResp.make 253 [0; 0; 0] = inr resp
    /\ Msg.len (msg resp) = 11%nat
    /\ ReadHoldingRegistersResp.regs resp = [0; 0; 0].
Proof.
  destruct (ReadHoldingRegistersResp_make_length 253) as [_ Hmk].
  apply (Hmk [0; 0; 0]). discriminate.
Defined.

(** C2.  A Read Holding Registers response that passes [validate()] but does
    not echo function code 0x03 is rejected by [decode()] with a
    [bad_resp_error] naming "function" (expected 3, with the code found). *)
Theorem ReadHoldingRegistersResp_decode_function
    (raw_size : nat) (regs : list Z) (resp : ReadHoldingRegistersResp.t)
    (rx : list byte) :
  ReadHoldingRegistersResp.make raw_size regs = inr resp ->
  passes_validate (received rx resp) ->
  u8_at rx 1 <> 0x03 ->
  outcome ReadHoldingRegistersResp.decode (received rx resp)
    = inl (bad_resp_error "function" 0x03 (u8_at rx 1)).
Proof.
  intros Hmk Hv Hf.
  destruct (ReadHoldingRegistersResp_frame _ _ _ _ Hmk Hv)
    as (Hregs & a & f & bc & data & lo & hi & -> & Hd).
  change (u8_at ([a; f; bc] ++ data ++ [lo; hi]) 1) with (Z_of_byte f) in *.
  unfold outcome.
  rewrite <- Hregs in Hd.
  rewrite (ReadHoldingRegistersResp_decode_run _ a f bc lo hi data Hv);
    [|done|exact Hd].
  erewrite bind_inl
    by (apply check_value_neq; rewrite uint32_byte; exact Hf).
  by rewrite uint32_byte.
Qed.

Lemma ReadHoldingRegistersResp_decode_function_witness :
  exists resp,
    ReadHoldingRegistersResp.make 253 [0] = inr resp
    /\ outcome ReadHoldingRegistersResp.decode
         (received [x11; x04; x02; x00; x2a; xf9; x2c] resp)
       = inl (bad_resp_error "function" 0x03 0x04).
Proof.
  eexists. split; [reflexivity|].
  apply (ReadHoldingRegistersResp_decode_function 253 [0] _
           [x11; x04; x02; x00; x2a; xf9; x2c] eq_refl).
  - vm_compute. reflexivity.
  - vm_compute. discriminate.
Defined.

(** C8.  [encode()] on a Write Multiple Registers request to which no data
    was appended ([len <= 7]) throws an underflow error; the object is left
    as it was, no byte of a frame written. *)
Theorem WriteMultipleRegistersReq_encode_underflow
    (q : WriteMultipleRegistersReq.t) :
  (Msg.len (msg q) <= 7)%nat ->
  WriteMultipleRegistersReq.encode q
    = (inl (underflow_error "No registers to write"), q).
Proof.
  intros Hlen. unfold WriteMultipleRegistersReq.encode.
  rewrite bind_get_len. cbv beta.
  destruct (Nat.leb_spec (Msg.len (msg q)) 7); [reflexivity|lia].
Qed.

Lemma WriteMultipleRegistersReq_encode_underflow_witness :
  WriteMultipleRegistersReq.encode (WriteMultipleRegistersReq.make 253 0x11 1)
  = (inl (underflow_error "No registers to write"),
     WriteMultipleRegistersReq.make 253 0x11 1).
Proof.
  apply WriteMultipleRegistersReq_encode_underflow. simpl. lia.
Defined.


Lemma length_padded_data (data : list byte) :
  Z.of_nat (length (padded_data data))
  = Z.of_nat (length data)
    + (if negb (Z.of_nat (length data) mod 2 =? 0) then 1 else 0).
Proof.
  unfold padded_data.
  destruct (negb _); [rewrite length_app; simpl|]; lia.
Qed.

Lemma padded_data_even (data : list byte) :
  2 * (Z.of_nat (length (padded_data data)) / 2)
  = Z.of_nat (length (padded_data data)).
Proof.
  rewrite length_padded_data.
  destruct (Z.eqb_spec (Z.of_nat (length data) mod 2) 0) as [H0|H0];
    cbn [negb]; Z.div_mod_to_equations; lia.
Qed.

(** C5.  [encode()] of a Write Multiple Registers request holding at least
    one data byte after the seven header bytes: an odd data length is padded
    with one zero byte and counted one higher; [reg_count] becomes half the
    (padded) data length, which it therefore covers exactly; the frame is
    dev_addr, function 0x10, starting_addr, reg_count, data_len, then the
    data, then the CRC.  The buffer is taken to hold at most one RTU frame
    (256 bytes) and to have room for the padding byte and the CRC. *)
Theorem WriteMultipleRegistersReq_encode_pads
    (q : WriteMultipleRegistersReq.t) (hdr data rest : list byte) :
  Msg.raw (msg q) = hdr ++ data ++ rest ->
  length hdr = 7%nat ->
  Msg.len (msg q) = (7 + length data)%nat ->
  (1 <= length data)%nat ->
  (3 <= length rest)%nat ->
  (length (Msg.raw (msg q)) <= 256)%nat ->
  WriteMultipleRegistersReq.function q = WRITE_MULTIPLE_REGISTERS ->
  let odd := negb (Z.of_nat (length data) mod 2 =? 0) in
  let data_len := Z.of_nat (length (padded_data data)) in
  let reg_count := data_len / 2 in
  let frame :=
    [byte_of_Z (WriteMultipleRegistersReq.dev_addr q);
     x10;
     byte_of_Z (uint16 (WriteMultipleRegistersReq.starting_addr q) / 256);
     byte_of_Z (uint16 (WriteMultipleRegistersReq.starting_addr q) mod 256);
     byte_of_Z (reg_count / 256);
     byte_of_Z (reg_count mod 256);
     byte_of_Z data_len] ++ padded_data data in
  let q' := after WriteMultipleRegistersReq.encode q in
  outcome WriteMultipleRegistersReq.encode q = inr tt
  /\ padded_data data = (if odd then data ++ [x00] else data)
  /\ data_len = Z.of_nat (length data) + (if odd then 1 else 0)
  /\ WriteMultipleRegistersReq.reg_count q' = reg_count
  /\ 2 * reg_count = data_len
  /\ Msg.bytes (msg q') = frame ++ crc_bytes frame.
Proof.
  intros Hraw Hhdr Hlen Hdata Hrest Hcap Hfun odd data_len reg_count frame q'.
  assert (Hd254 : (1 <= length data <= 254)%nat).
  { rewrite Hraw, !length_app in Hcap. lia. }
  destruct (WriteMultipleRegistersReq_encode_run q hdr data rest
              Hraw Hhdr Hlen Hd254 Hrest) as (Hout & Hbytes & Hcnt).
  assert (Hdl : data_len = Z.of_nat (length data) + (if odd then 1 else 0))
    by apply length_padded_data.
  assert (Heven : 2 * reg_count = data_len) by apply padded_data_even.
  split; [exact Hout|]. split; [reflexivity|]. split; [exact Hdl|].
  split; [exact Hcnt|]. split; [exact Heven|].
  subst q'. rewrite Hbytes. unfold WriteMultipleRegistersReq_header.
  rewrite Hfun.
  assert (Hrc : uint16 (data_len / 2) = reg_count).
  { subst reg_count. unfold uint16. apply Z.mod_small.
    assert (0 <= data_len <= 255) by (destruct odd; lia).
    clearbody data_len. clear -H. Z.div_mod_to_equations; lia. }
  subst frame. rewrite <- Hrc. reflexivity.
Qed.

Lemma WriteMultipleRegistersReq_encode_pads_witness :
  outcome WriteMultipleRegistersReq.encode example_request = inr tt
  /\ Msg.bytes (msg (after WriteMultipleRegistersReq.encode example_request))
     = [x11; x10; x00; x01; x00; x02; x04; x01; x02; x03; x00]
       ++ crc_bytes [x11; x10; x00; x01; x00; x02; x04; x01; x02; x03; x00].
Proof.
  destruct (WriteMultipleRegistersReq_encode_pads example_request
              [x00; x00; x00; x00; x00; x00; x00] [x01; x02; x03]
              [x00; x00; x00; x00; x00; x00])
    as (Hout & _ & _ & _ & _ & Hbytes);
    [reflexivity | reflexivity | reflexivity | simpl; lia | simpl; lia
    | simpl; lia | reflexivity |].
  split; [exact Hout|exact Hbytes].
Defined.


(** C6.  A Read File Record response built over a record list expects
    [5 + sum (2 + 2 * record_len)] bytes.  On a frame that passes
    [validate()], [decode()] raises the first mismatch, if any, among: for
    each record, from the last to the first, reference type against 0x06 and
    field length against [1 + 2 * record_len]; then data_len against the
    length left after the CRC minus 3 (as a byte), the function code, the
    device address; and raises nothing else, so that it returns exactly when
    all of these hold.  When it returns, the records hold the words of the
    frame and no byte is left ([len == 0]). *)
Theorem ReadFileRecordResp_decode_checks
    (raw_size : nat) (a : Z) (recs : list FileRecord.t) (rx : list byte) :
  let resp := ReadFileRecordResp.make raw_size a recs in
  let r := received rx resp in
  Msg.len (msg resp)
    = (5 + sum_list_with (fun rec => 2 + 2 * record_size rec) recs)%nat
  /\ (passes_validate r ->
      outcome ReadFileRecordResp.decode r
        = raised
            (first_mismatch (ReadFileRecordResp_checks_spec (uint8 a) recs rx))
      /\ (outcome ReadFileRecordResp.decode r = inr tt <->
          Forall (fun c => uint32 (snd (fst c)) = uint32 (snd c))
            (ReadFileRecordResp_checks_spec (uint8 a) recs rx))
      /\ (outcome ReadFileRecordResp.decode r = inr tt ->
          ReadFileRecordResp.records (after ReadFileRecordResp.decode r)
            = with_fields (record_fields (map record_size recs) (drop 3 rx))
                recs
          /\ Msg.len (msg (after ReadFileRecordResp.decode r)) = 0%nat)
      /\ ((length rx <= 258)%nat ->
          uint8 (Z.of_nat (length rx - 2) - 3) = Z.of_nat (length rx - 2) - 3)).
Proof.
  intros resp r. split; [apply expected_len_sum|].
  intros Hv.
  destruct (ReadFileRecordResp_decode_run r Hv) as [Hout Hafter];
    [reflexivity|].
  split; [exact Hout|]. split; [|split].
  - rewrite Hout, <- first_mismatch_None.
    destruct (first_mismatch _); by split.
  - intros Hok. rewrite Hout in Hok.
    destruct (first_mismatch _) eqn:Hfm; [done|].
    by rewrite (Hafter eq_refl).
  - intros Hsmall.
    destruct (validate_inv r Hv) as (body & lo & hi & Hraw & Hlen & _).
    cbn in Hraw, Hlen. rewrite expected_len_sum in Hlen.
    apply uint8_small. lia.
Qed.

Lemma ReadFileRecordResp_decode_checks_witness :
  outcome ReadFileRecordResp.decode
    (received [x11; x14; x04; x03; x06; x12; x34; x05; xe7]
       (ReadFileRecordResp.make 253 0x11 example_records))
  = inr tt.
Proof.
  destruct (ReadFileRecordResp_decode_checks 253 0x11 example_records
              [x11; x14; x04; x03; x06; x12; x34; x05; xe7]) as [_ Hd].
  destruct Hd as [Hout _]; [vm_compute; reflexivity|].
  exact Hout.
Defined.

(** C1, as amended.  A response whose echoed device address differs from the
    expected one is rejected with a [bad_resp_error] by
    [WriteMultipleRegistersResp::decode] (field "dev_addr", with the expected
    and the echoed address) and by [ReadFileRecordResp::decode] (with the
    field, expected and actual value of the first mismatch; "addr", the
    expected and the echoed address when the frame is otherwise right).
    [ReadHoldingRegistersResp::decode], built without a device address,
    accepts whatever address is echoed and stores it. *)
Theorem device_address_checked_where_expected :
  (forall raw_size a off cnt rx,
      let r :=
        received rx (WriteMultipleRegistersResp.make raw_size a off cnt) in
      passes_validate r ->
      u8_at rx 0 <> uint8 a ->
      outcome WriteMultipleRegistersResp.decode r
        = inl (bad_resp_error "dev_addr" (uint8 a) (u8_at rx 0)))
  /\ (forall raw_size a recs rx,
      let r := received rx (ReadFileRecordResp.make raw_size a recs) in
      passes_validate r ->
      u8_at rx 0 <> uint8 a ->
      (exists what expected_value value,
          outcome ReadFileRecordResp.decode r
            = inl (bad_resp_error what expected_value value))
      /\ (first_mismatch (ReadFileRecordResp_checks_spec (u8_at rx 0) recs rx)
          = None ->
          outcome ReadFileRecordResp.decode r
            = inl (bad_resp_error "addr" (uint8 a) (u8_at rx 0))))
  /\ (forall raw_size regs resp rx,
      ReadHoldingRegistersResp.make raw_size regs = inr resp ->
      let r := received rx resp in
      passes_validate r ->
      u8_at rx 1 = 0x03 ->
      u8_at rx 2 = Z.of_nat (length regs) * 2 ->
      outcome ReadHoldingRegistersResp.decode r = inr tt
      /\ ReadHoldingRegistersResp.dev_addr
           (after ReadHoldingRegistersResp.decode r) = u8_at rx 0).
Proof.
  split; [|split].
  - intros raw_size a off cnt rx r Hv Ha.
    destruct (validate_inv r Hv) as (body & lo & hi & Hraw & Hlen & _).
    cbn in Hraw, Hlen. subst rx. rewrite length_app in Hlen. cbn in Hlen.
    destruct body as [|b0 [|f [|oh [|ol [|ch [|cl [|]]]]]]];
      cbn in Hlen; try lia.
    change (u8_at _ 0) with (Z_of_byte b0) in *.
    unfold outcome.
    rewrite (WriteMultipleRegistersResp_decode_run
               r b0 f oh ol ch cl lo hi Hv eq_refl).
    erewrite bind_inl.
    2:{ apply check_value_neq. cbn. rewrite uint32_byte, uint32_small; [done|].
        pose proof (uint8_range a). lia. }
    cbn. rewrite uint32_byte, uint32_small; [done|].
    pose proof (uint8_range a). lia.
  - intros raw_size a recs rx r Hv Ha.
    destruct (ReadFileRecordResp_decode_run r Hv) as [Hout _];
      [reflexivity|].
    cbv zeta in Hout.
    change (ReadFileRecordResp.dev_addr r) with (uint8 a) in Hout.
    change (ReadFileRecordResp.records r) with recs in Hout.
    change (Msg.raw (msg r)) with rx in Hout.
    rewrite Hout. clear Hout.
    unfold ReadFileRecordResp_checks_spec. rewrite !first_mismatch_app.
    assert (Hne : uint32 (u8_at rx 0) <> uint32 (uint8 a)).
    { destruct (validate_inv r Hv) as (body & lo & hi & Hraw & Hlen & _).
      cbn in Hraw, Hlen. rewrite expected_len_sum in Hlen. subst rx.
      destruct body as [|b0 body]; [cbn in Hlen; lia|].
      change (u8_at _ 0) with (Z_of_byte b0) in *.
      rewrite uint32_byte, uint32_small; [done|].
      pose proof (uint8_range a). lia. }
    assert (Hu : uint32 (u8_at rx 0) = u8_at rx 0).
    { destruct (validate_inv r Hv) as (body & lo & hi & Hraw & Hlen & _).
      cbn in Hraw, Hlen. rewrite expected_len_sum in Hlen. subst rx.
      destruct body as [|b0 body]; [cbn in Hlen; lia|].
      apply uint32_byte. }
    assert (Hua : uint32 (uint8 a) = uint8 a).
    { apply uint32_small. pose proof (uint8_range a). lia. }
    destruct (first_mismatch (flat_map _ _)) as [e|] eqn:Hrec.
    { split; [|done].
      destruct (first_mismatch_is_bad_resp _ _ Hrec) as (w & ev & v & ->).
      by eexists _, _, _. }
    cbn [first_mismatch raised].
    destruct (_ =? _); [|split; [by eexists _, _, _|done]].
    destruct (_ =? _); [|split; [by eexists _, _, _|done]].
    rewrite Z.eqb_refl.
    destruct (Z.eqb_spec (uint32 (u8_at rx 0)) (uint32 (uint8 a))); [done|].
    rewrite Hu, Hua. split; [by eexists _, _, _|done].
  - intros raw_size regs resp rx Hmk r Hv Hf Hbc.
    destruct (ReadHoldingRegistersResp_frame _ _ _ _ Hmk Hv)
      as (Hregs & a & f & bc & data & lo & hi & -> & Hd).
    change (u8_at _ 0) with (Z_of_byte a).
    change (u8_at _ 1) with (Z_of_byte f) in Hf.
    change (u8_at _ 2) with (Z_of_byte bc) in Hbc.
    rewrite <- Hregs in Hd.
    unfold outcome, after.
    rewrite (ReadHoldingRegistersResp_decode_run _ a f bc lo hi data Hv);
      [|done|exact Hd].
    erewrite bind_inr by (apply check_value_eq; by rewrite Hf).
    rewrite check_value_eq; [done|].
    rewrite (length_words_of _ _ Hd). cbn. by rewrite Hregs, Hbc.
Qed.

Lemma device_address_checked_witness :
  outcome WriteMultipleRegistersResp.decode
    (received [x22; x10; x00; x01; x00; x02; x17; x5b]
       (WriteMultipleRegistersResp.make 253 0x11 1 2))
  = inl (bad_resp_error "dev_addr" 0x11 0x22)
  /\ outcome ReadFileRecordResp.decode
       (received [x22; x14; x04; x03; x06; x12; x34; x06; xe4]
          (ReadFileRecordResp.make 253 0x11 example_records))
     = inl (bad_resp_error "addr" 0x11 0x22)
  /\ exists resp,
       ReadHoldingRegistersResp.make 253 [0] = inr resp
       /\ outcome ReadHoldingRegistersResp.decode
            (received [x22; x03; x02; x00; x2a; xfc; x5c] resp) = inr tt
       /\ ReadHoldingRegistersResp.dev_addr
            (after ReadHoldingRegistersResp.decode
               (received [x22; x03; x02; x00; x2a; xfc; x5c] resp)) = 0x22.
Proof.
  destruct device_address_checked_where_expected as (Hwmr & Hrfr & Hrhr).
  split; [|split].
  - apply (Hwmr 253%nat 0x11 1 2 [x22; x10; x00; x01; x00; x02; x17; x5b]).
    + vm_compute. reflexivity.
    + vm_compute. discriminate.
  - destruct (Hrfr 253%nat 0x11 example_records
                [x22; x14; x04; x03; x06; x12; x34; x06; xe4]) as [_ Haddr].
    + vm_compute. reflexivity.
    + vm_compute. discriminate.
    + apply Haddr. vm_compute. reflexivity.
  - eexists. split; [reflexivity|].
    apply (Hrhr 253%nat [0] _ [x22; x03; x02; x00; x2a; xfc; x5c] eq_refl).
    + vm_compute. reflexivity.
    + reflexivity.
    + reflexivity.
Defined.

(** C1 as stated fails: a Read Holding Registers request sent to device 0x11
    is answered by a well-formed frame echoing device 0x22, and
    [ReadHoldingRegistersResp::decode] returns normally; so does
    [WriteSingleRegisterResp::decode] on a reply from device 0x22 to a
    response object built for device 0x11. *)
Lemma device_address_unchecked_counterexample :
  ReadHoldingRegistersReq.dev_addr (ReadHoldingRegistersReq.make 253 0x11 0 1)
    <> u8_at [x22; x03; x02; x00; x2a; xfc; x5c] 0
  /\ (exists resp,
        ReadHoldingRegistersResp.make 253 [0] = inr resp
        /\ passes_validate (received [x22; x03; x02; x00; x2a; xfc; x5c] resp)
        /\ outcome ReadHoldingRegistersResp.decode
             (received [x22; x03; x02; x00; x2a; xfc; x5c] resp) = inr tt)
  /\ passes_validate
       (received [x22; x06; x00; x01; x00; x03; x9f; x58]
          (WriteSingleRegisterResp.make 253 0x11 1))
  /\ outcome WriteSingleRegisterResp.decode
       (received [x22; x06; x00; x01; x00; x03; x9f; x58]
          (WriteSingleRegisterResp.make 253 0x11 1)) = inr tt.
Proof.
  split; [vm_compute; discriminate|].
  split; [eexists; split; [reflexivity|split; vm_compute; reflexivity]|].
  split; vm_compute; reflexivity.
Qed.

(** ** Further properties of the code *)

(** ** More on registers and their history *)

Lemma write_slot_inv (s s' : RegisterStore.t) (i ts : Z) (ws : list Z) :
  RegisterStore.write_slot s i ts ws = Some s' ->
  exists r,
    vec_at (RegisterStore.history s) i = Some r
    /\ s' = {| RegisterStore.desc := RegisterStore.desc s;
               RegisterStore.reg_addr := RegisterStore.reg_addr s;
               RegisterStore.history :=
                 <[Z.to_nat i := Register.assign r ts ws]>
                   (RegisterStore.history s);
               RegisterStore.idx := RegisterStore.idx s |}.
Proof.
  unfold RegisterStore.write_slot.
  destruct (vec_at _ _) as [r|]; simpl; [|done].
  intros [= <-]. by exists r.
Qed.

Lemma op_incr_inv (s s' : RegisterStore.t) :
  0 <= RegisterStore.idx s < RegisterStore.size s ->
  RegisterStore.size s < 2 ^ 16 ->
  RegisterStore.op_incr s = Some s' ->
  s' = {| RegisterStore.desc := RegisterStore.desc s;
          RegisterStore.reg_addr := RegisterStore.reg_addr s;
          RegisterStore.history := RegisterStore.history s;
          RegisterStore.idx :=
            (RegisterStore.idx s + 1) mod RegisterStore.size s |}.
Proof.
  intros Hi Hk Hs. destruct (op_incr_idx s s' Hi Hk Hs) as [Hidx _].
  unfold RegisterStore.op_incr in Hs.
  destruct (_ =? _); [done|]. injection Hs as <-. simpl in *.
  by rewrite Hidx.
Qed.

Lemma op_incr_is_Some (s : RegisterStore.t) :
  RegisterStore.size s <> 0 -> is_Some (RegisterStore.op_incr s).
Proof.
  intros Hne. unfold RegisterStore.op_incr.
  destruct (Z.eqb_spec (RegisterStore.size s) 0); [done|by eexists].
Qed.

Lemma RegisterStore_make_size (d : RegisterDescriptor.t) :
  0 <= RegisterDescriptor.keep d ->
  RegisterStore.size (RegisterStore.make d) = RegisterDescriptor.keep d
  /\ RegisterStore.idx (RegisterStore.make d) = 0.
Proof.
  intros Hk. split; [|done].
  unfold RegisterStore.size, RegisterStore.make; simpl.
  rewrite length_replicate. lia.
Qed.

(** X1.  [==] on registers is symmetric and transitive, and a register is
    equal to itself exactly when it is valid ([operator bool]): an invalid
    reading differs even from itself. *)
Theorem Register_op_eq_partial_equivalence (a b c : Register.t) :
  Register.op_eq a b = Register.op_eq b a
  /\ Register.op_eq a a = Register.op_bool a
  /\ (Register.op_eq a b = true -> Register.op_eq b c = true ->
      Register.op_eq a c = true).
Proof.
  split; [|split].
  - unfold Register.op_eq, Register.value_eqb.
    rewrite (bool_decide_ext (Register.value a = Register.value b)
               (Register.value b = Register.value a)) by (split; congruence).
    destruct (Register.timestamp a =? 0), (Register.timestamp b =? 0);
      simpl; reflexivity.
  - unfold Register.op_eq, Register.op_bool, Register.value_eqb.
    rewrite bool_decide_eq_true_2 by done.
    by destruct (Register.timestamp a =? 0).
  - unfold Register.op_eq.
    rewrite !andb_true_iff, !value_eqb_eq.
    intros [[Ha _] Hab] [[_ Hc] Hbc]. repeat split; [done|done|congruence].
Qed.

Lemma Register_op_eq_partial_equivalence_witness :
  Register.op_eq (Register.mk (example_descriptor 1) 5 [1])
                 (Register.mk (example_descriptor 1) 9 [1]) = true.
Proof.
  destruct (Register_op_eq_partial_equivalence
              (Register.mk (example_descriptor 1) 5 [1])
              (Register.mk (example_descriptor 1) 7 [1])
              (Register.mk (example_descriptor 1) 9 [1])) as (_ & _ & Htrans).
  apply Htrans; reflexivity.
Defined.

(** X2.  A store just built from its descriptor holds [keep] slots, all of
    them invalid (timestamp 0, [length] zero words), with the cursor on slot
    0; when [keep >= 1], [back()] is such an invalid register, so every
    reading differs from it ([!=] true, [==] false). *)
Theorem RegisterStore_make_all_invalid (d : RegisterDescriptor.t) :
  0 <= RegisterDescriptor.keep d ->
  RegisterStore.size (RegisterStore.make d) = RegisterDescriptor.keep d
  /\ RegisterStore.idx (RegisterStore.make d) = 0
  /\ Forall (fun r => r = Register.make d /\ Register.op_bool r = false)
       (RegisterStore.history (RegisterStore.make d))
  /\ (1 <= RegisterDescriptor.keep d ->
      RegisterStore.back (RegisterStore.make d) = Some (Register.make d)
      /\ RegisterStore.front (RegisterStore.make d) = Some (Register.make d)
      /\ forall r, Register.op_ne (Register.make d) r = true
                   /\ Register.op_eq (Register.make d) r = false).
Proof.
  intros Hk. split; [|split; [done|split]].
  - unfold RegisterStore.size, RegisterStore.make; simpl.
    rewrite length_replicate. lia.
  - apply Forall_forall. intros r Hr.
    apply elem_of_replicate in Hr as [-> _]. by split.
  - intros Hk1.
    assert (Hl : Z.of_nat
                   (length (RegisterStore.history (RegisterStore.make d)))
                 = RegisterDescriptor.keep d).
    { simpl. rewrite length_replicate. lia. }
    split; [|split; [|done]].
    + unfold RegisterStore.back, RegisterStore.back_slot, vec_at.
      unfold RegisterStore.size. rewrite Hl. simpl.
      destruct (Z.ltb_spec (RegisterDescriptor.keep d - 1) 0); [lia|].
      apply lookup_replicate_2. lia.
    + unfold RegisterStore.front, RegisterStore.front_slot, vec_at. simpl.
      apply lookup_replicate_2. lia.
Qed.

Lemma RegisterStore_make_all_invalid_witness :
  RegisterStore.back (RegisterStore.make (example_descriptor 3))
  = Some (Register.make (example_descriptor 3)).
Proof.
  destruct (RegisterStore_make_all_invalid (example_descriptor 3))
    as (_ & _ & _ & Hb); [simpl; lia|].
  destruct Hb as [Hb _]; [simpl; lia|]. exact Hb.
Defined.

(** X3.  With [1 <= keep < 2^16], every state a store reaches keeps its
    [keep] slots and its cursor within [0, keep): [front()] and [back()]
    always designate a slot and [++] never divides by zero. *)
Theorem RegisterStore_cursor_in_range
    (d : RegisterDescriptor.t) (s : RegisterStore.t) :
  1 <= RegisterDescriptor.keep d < 2 ^ 16 ->
  RegisterStore.reachable d s ->
  RegisterStore.size s = RegisterDescriptor.keep d
  /\ 0 <= RegisterStore.idx s < RegisterStore.size s
  /\ is_Some (RegisterStore.front s)
  /\ is_Some (RegisterStore.back s)
  /\ is_Some (RegisterStore.op_incr s).
Proof.
  intros Hk Hr.
  assert (Hinv : RegisterStore.size s = RegisterDescriptor.keep d
                 /\ 0 <= RegisterStore.idx s < RegisterStore.size s).
  { induction Hr as [|s s' _ IH Hs|s w s' _ IH Hs|s w s' _ IH Hs].
    - destruct (RegisterStore_make_size d) as [-> ?]; [lia|].
      simpl. lia.
    - destruct IH as [Hsz Hi].
      rewrite (op_incr_inv s s' Hi ltac:(lia) Hs). unfold RegisterStore.size.
      simpl. fold (RegisterStore.size s). split; [done|].
      apply Z.mod_pos_bound. lia.
    - destruct (write_slot_inv _ _ _ _ _ Hs) as (r & _ & ->).
      unfold RegisterStore.size in *. simpl. by rewrite length_insert.
    - destruct (write_slot_inv _ _ _ _ _ Hs) as (r & _ & ->).
      unfold RegisterStore.size in *. simpl. by rewrite length_insert. }
  destruct Hinv as [Hsz Hi]. split; [done|]. split; [done|].
  split; [|split].
  - apply vec_at_Some. unfold RegisterStore.front_slot, RegisterStore.size in *.
    lia.
  - apply vec_at_Some. unfold RegisterStore.back_slot, RegisterStore.size in *.
    destruct (Z.eqb_spec (RegisterStore.idx s) 0); lia.
  - apply op_incr_is_Some. lia.
Qed.


Lemma RegisterStore_cursor_in_range_witness :
  is_Some (RegisterStore.back example_store1)
  /\ is_Some (RegisterStore.op_incr example_store1).
Proof.
  assert (Hr : RegisterStore.reachable (example_descriptor 1) example_store1).
  { apply (RegisterStore.reach_incr _ example_store1 example_store1);
      [|reflexivity].
    apply (RegisterStore.reach_write_front _
             (RegisterStore.make (example_descriptor 1)) (9, [3]));
      [|reflexivity].
    apply RegisterStore.reach_make. }
  destruct (RegisterStore_cursor_in_range (example_descriptor 1)
              example_store1) as (_ & _ & _ & Hb & Hi);
    [simpl; lia|exact Hr|].
  split; [exact Hb|exact Hi].
Defined.

(** X4.  A descriptor with [keep == 0] gives a store without slots:
    [front()] and [back()] designate nothing and [++] divides by zero, so no
    write and no advance is possible; the store stays as built. *)
Theorem RegisterStore_keep0_unusable
    (d : RegisterDescriptor.t) (s : RegisterStore.t) :
  RegisterDescriptor.keep d = 0 ->
  RegisterStore.reachable d s ->
  s = RegisterStore.make d
  /\ RegisterStore.front s = None
  /\ RegisterStore.back s = None
  /\ RegisterStore.op_incr s = None
  /\ (forall w, RegisterStore.write_front s w = None)
  /\ (forall w, RegisterStore.write_back s w = None).
Proof.
  intros Hk Hr.
  assert (Hmk : RegisterStore.make d
                = {| RegisterStore.desc := d;
                     RegisterStore.reg_addr := RegisterDescriptor.begin d;
                     RegisterStore.history := [];
                     RegisterStore.idx := 0 |}).
  { unfold RegisterStore.make. by rewrite Hk. }
  assert (Hs : s = RegisterStore.make d).
  { induction Hr as [|s s' _ IH Hs|s w s' _ IH Hs|s w s' _ IH Hs];
      [done|rewrite IH, Hmk in Hs; discriminate..]. }
  rewrite Hs, Hmk. by repeat split.
Qed.

Lemma RegisterStore_keep0_unusable_witness :
  RegisterStore.op_incr (RegisterStore.make (example_descriptor 0)) = None.
Proof.
  destruct (RegisterStore_keep0_unusable (example_descriptor 0)
              (RegisterStore.make (example_descriptor 0)) eq_refl)
    as (_ & _ & _ & Hi & _); [apply RegisterStore.reach_make|exact Hi].
Defined.

(** X5.  Storing a reading into [front()] and advancing: the store keeps its
    size, only the slot under the cursor changes, the cursor moves to
    [(idx + 1) mod size], [back()] is the reading just stored, and in
    chronological order the oldest reading has gone and the new one is
    last. *)
Theorem RegisterStore_record_back
    (s : RegisterStore.t) (w : Z * list Z) :
  0 <= RegisterStore.idx s < RegisterStore.size s ->
  RegisterStore.size s < 2 ^ 16 ->
  exists r s',
    RegisterStore.front s = Some r
    /\ RegisterStore.record s w = Some s'
    /\ RegisterStore.history s'
       = <[Z.to_nat (RegisterStore.idx s) := Register.assign r (fst w) (snd w)]>
           (RegisterStore.history s)
    /\ RegisterStore.size s' = RegisterStore.size s
    /\ RegisterStore.idx s' = (RegisterStore.idx s + 1) mod RegisterStore.size s
    /\ RegisterStore.back s' = Some (Register.assign r (fst w) (snd w))
    /\ RegisterStore.chronological s'
       = drop 1 (RegisterStore.chronological s)
         ++ [Register.assign r (fst w) (snd w)].
Proof.
  intros Hi Hk.
  destruct s as [d ra h i]. unfold RegisterStore.size in *. simpl in *.
  destruct (vec_at_Some h i ltac:(lia)) as [r Hr].
  set (x := Register.assign r (fst w) (snd w)).
  set (n := Z.to_nat i).
  assert (Hn : (n < length h)%nat) by lia.
  assert (Hin : i = Z.of_nat n) by lia.
  exists r, {| RegisterStore.desc := d; RegisterStore.reg_addr := ra;
               RegisterStore.history := <[n := x]> h;
               RegisterStore.idx := (i + 1) mod Z.of_nat (length h) |}.
  split; [exact Hr|]. split.
  { unfold RegisterStore.record, RegisterStore.write_front,
      RegisterStore.write_slot, RegisterStore.front_slot. simpl.
    rewrite Hr. simpl. fold x. fold n.
    destruct (RegisterStore.op_incr _) as [s'|] eqn:Hs'.
    - f_equal. apply op_incr_inv in Hs'.
      + rewrite Hs'. unfold RegisterStore.size. simpl.
        by rewrite length_insert.
      + unfold RegisterStore.size. simpl. rewrite length_insert. lia.
      + unfold RegisterStore.size. simpl. rewrite length_insert. lia.
    - unfold RegisterStore.op_incr, RegisterStore.size in Hs'. simpl in Hs'.
      rewrite length_insert in Hs'.
      destruct (Z.eqb_spec (Z.of_nat (length h)) 0); [lia|done]. }
  simpl. split; [done|]. split; [by rewrite length_insert|]. split; [done|].
  unfold RegisterStore.back, RegisterStore.back_slot,
    RegisterStore.chronological, RegisterStore.size. simpl.
  rewrite length_insert. fold n.
  destruct (Z.eq_dec (i + 1) (Z.of_nat (length h))) as [Hlast|Hmid].
  - rewrite Hlast, Z_mod_same_full. simpl.
    assert (Hn1 : length h = S n) by lia.
    split.
    + unfold vec_at.
      destruct (Z.ltb_spec (Z.of_nat (length h) - 1) 0); [lia|].
      replace (Z.to_nat (Z.of_nat (length h) - 1)) with n by lia.
      by apply list_lookup_insert_eq.
    + change (Z.to_nat 0) with 0%nat. rewrite drop_0, take_0.
      rewrite app_nil_r.
      rewrite <- (take_drop n h) at 1.
      rewrite insert_app_r_alt by (rewrite length_take; lia).
      rewrite length_take, Nat.min_l, Nat.sub_diag by lia.
      destruct (drop n h) as [|y [|z t]] eqn:Hd;
        apply (f_equal length) in Hd as Hd'; rewrite length_drop in Hd';
        simpl in Hd'; try lia.
      reflexivity.
  - rewrite Z.mod_small by lia.
    destruct (Z.eqb_spec (i + 1) 0); [lia|].
    replace (i + 1 - 1) with i by lia.
    replace (Z.to_nat (i + 1)) with (S n) by lia.
    split.
    + unfold vec_at. destruct (Z.ltb_spec i 0); [lia|].
      fold n. by apply list_lookup_insert_eq.
    + rewrite drop_insert_lt by lia.
      rewrite (take_S_r (<[n:=x]> h) n x) by (by apply list_lookup_insert_eq).
      rewrite take_insert_ge by lia.
      rewrite drop_app_le by (rewrite length_drop; lia).
      rewrite drop_drop. replace (n + 1)%nat with (S n) by lia.
      by rewrite <- app_assoc.
Qed.

Lemma RegisterStore_record_back_witness :
  exists s',
    RegisterStore.record example_store3 (9, [5]) = Some s'
    /\ RegisterStore.back s'
       = Some (Register.mk (example_descriptor 3) 9 [5]).
Proof.
  destruct (RegisterStore_record_back example_store3 (9, [5]))
    as (r & s' & Hf & Hrec & _ & _ & _ & Hb & _);
    [unfold RegisterStore.size; simpl; lia
    |unfold RegisterStore.size; simpl; lia|].
  exists s'. split; [exact Hrec|].
  injection Hf as <-. exact Hb.
Defined.

(** X6.  Advancing [n] times moves the cursor to [(idx + n) mod size] and
    touches nothing else; after [size] advances the store is as it was: the
    ring wraps and never fills. *)
Theorem RegisterStore_advance_wraps (n : nat) (s : RegisterStore.t) :
  0 <= RegisterStore.idx s < RegisterStore.size s ->
  RegisterStore.size s < 2 ^ 16 ->
  RegisterStore_advance n s
  = Some {| RegisterStore.desc := RegisterStore.desc s;
            RegisterStore.reg_addr := RegisterStore.reg_addr s;
            RegisterStore.history := RegisterStore.history s;
            RegisterStore.idx :=
              (RegisterStore.idx s + Z.of_nat n) mod RegisterStore.size s |}
  /\ RegisterStore_advance (Z.to_nat (RegisterStore.size s)) s = Some s.
Proof.
  intros Hi Hk.
  assert (Hgen : forall n s,
    0 <= RegisterStore.idx s < RegisterStore.size s ->
    RegisterStore.size s < 2 ^ 16 ->
    RegisterStore_advance n s
    = Some {| RegisterStore.desc := RegisterStore.desc s;
              RegisterStore.reg_addr := RegisterStore.reg_addr s;
              RegisterStore.history := RegisterStore.history s;
              RegisterStore.idx :=
                (RegisterStore.idx s + Z.of_nat n) mod RegisterStore.size s |}).
  { clear. induction n as [|n IH]; intros s Hi Hk.
    - simpl. rewrite Z.add_0_r, Z.mod_small by lia. by destruct s.
    - cbn [RegisterStore_advance].
      destruct (op_incr_is_Some s ltac:(lia)) as [s' Hs'].
      rewrite Hs'. simpl.
      pose proof (op_incr_inv s s' Hi Hk Hs') as ->.
      rewrite IH.
      + unfold RegisterStore.size. simpl. fold (RegisterStore.size s).
        do 2 f_equal.
        rewrite Zplus_mod_idemp_l. f_equal. lia.
      + unfold RegisterStore.size. simpl. fold (RegisterStore.size s).
        apply Z.mod_pos_bound. lia.
      + unfold RegisterStore.size. simpl. by fold (RegisterStore.size s). }
  split; [by apply Hgen|].
  rewrite Hgen by done. rewrite Z2Nat.id by lia.
  rewrite <- (Z.mul_1_l (RegisterStore.size s)) at 1.
  rewrite Z.mod_add, Z.mod_small by lia. by destruct s.
Qed.

Lemma RegisterStore_advance_wraps_witness :
  RegisterStore_advance 3 example_store3 = Some example_store3.
Proof.
  destruct (RegisterStore_advance_wraps 0 example_store3) as [_ Hw];
    [unfold RegisterStore.size; simpl; lia
    |unfold RegisterStore.size; simpl; lia|exact Hw].
Defined.


(** ** CRC and bytes *)

Lemma Z_of_byte_of_Z (z : Z) : Z_of_byte (byte_of_Z z) = uint8 z.
Proof.
  unfold byte_of_Z, Z_of_byte.
  assert (Hr : 0 <= uint8 z < 256)
    by (unfold uint8; apply Z.mod_pos_bound; lia).
  destruct (Byte.of_N (Z.to_N (uint8 z))) as [b|] eqn:Hb.
  - apply Byte.to_of_N in Hb. rewrite Hb. lia.
  - apply Byte.of_N_None_iff in Hb. lia.
Qed.

Lemma byte_of_Z_of_byte (b : byte) : byte_of_Z (Z_of_byte b) = b.
Proof.
  unfold byte_of_Z, Z_of_byte, uint8.
  pose proof (Byte.to_N_bounded b).
  rewrite Z.mod_small by lia. by rewrite N2Z.id, Byte.of_to_N.
Qed.

Lemma uint16_range (z : Z) : 0 <= uint16 z < 65536.
Proof. unfold uint16. apply Z.mod_pos_bound. lia. Qed.

Lemma uint16_small (z : Z) : 0 <= z < 65536 -> uint16 z = z.
Proof. intros Hz. unfold uint16. apply Z.mod_small. lia. Qed.

Lemma word_of_bytes (w : Z) :
  0 <= w < 65536 ->
  Z_of_byte (byte_of_Z (w / 256)) * 256 + Z_of_byte (byte_of_Z (w mod 256)) = w.
Proof.
  intros Hw. rewrite !Z_of_byte_of_Z.
  rewrite !uint8_small by (Z.div_mod_to_equations; lia).
  Z.div_mod_to_equations; lia.
Qed.

Lemma lxor_lt_pow2 (a b n : Z) :
  0 <= n -> 0 <= a < 2 ^ n -> 0 <= b < 2 ^ n -> 0 <= Z.lxor a b < 2 ^ n.
Proof.
  intros Hn Ha Hb. split; [apply Z.lxor_nonneg; lia|].
  destruct (Z.eq_dec (Z.lxor a b) 0) as [->|Hne]; [lia|].
  assert (Hn0 : 0 < n).
  { destruct (Z.eq_dec n 0) as [->|]; [|lia].
    assert (a = 0) as -> by lia. assert (b = 0) as -> by lia. done. }
  apply Z.log2_lt_pow2; [pose proof (Z.lxor_nonneg a b); lia|].
  eapply Z.le_lt_trans; [apply Z.log2_lxor; lia|].
  apply Z.max_lub_lt.
  - destruct (Z.eq_dec a 0) as [->|?]; [simpl; lia|].
    apply Z.log2_lt_pow2; lia.
  - destruct (Z.eq_dec b 0) as [->|?]; [simpl; lia|].
    apply Z.log2_lt_pow2; lia.
Qed.

Lemma crc16_shift_range (crc : Z) :
  0 <= crc < 2 ^ 16 -> 0 <= crc16_shift crc < 2 ^ 16.
Proof.
  intros Hc. unfold crc16_shift.
  assert (Hs : 0 <= Z.shiftr crc 1 < 2 ^ 15).
  { rewrite Z.shiftr_div_pow2 by lia. Z.div_mod_to_equations; lia. }
  destruct (Z.testbit crc 0); [|lia].
  apply lxor_lt_pow2; lia.
Qed.

Lemma crc16_byte_range (crc : Z) (b : byte) :
  0 <= crc < 2 ^ 16 -> 0 <= crc16_byte crc b < 2 ^ 16.
Proof.
  intros Hc. unfold crc16_byte.
  assert (Hx : 0 <= Z.lxor crc (Z_of_byte b) < 2 ^ 16).
  { apply lxor_lt_pow2; [lia|lia|]. pose proof (Z_of_byte_range b). lia. }
  generalize dependent (Z.lxor crc (Z_of_byte b)). intros x Hx.
  do 8 (apply crc16_shift_range). exact Hx.
Qed.

Lemma crc16_range (bs : list byte) : 0 <= crc16 bs < 2 ^ 16.
Proof.
  unfold crc16. assert (H0 : 0 <= 0xFFFF < 2 ^ 16) by lia.
  revert H0. generalize 0xFFFF.
  induction bs as [|b bs IH]; intros c Hc; [done|].
  simpl. apply IH. by apply crc16_byte_range.
Qed.

(** A frame that ends in the CRC of its body passes [validate()]. *)
Lemma validate_with_crc {Obj} `{IsMsg Obj} (s : Obj) (body : list byte) :
  Msg.raw (msg s) = with_crc body ->
  Msg.len (msg s) = (length body + 2)%nat ->
  passes_validate s.
Proof.
  intros Hraw Hlen. unfold passes_validate, outcome, validate.
  rewrite Hraw, Hlen. unfold with_crc, crc_bytes.
  rewrite length_app. simpl length. rewrite Nat.eqb_refl. simpl negb. cbv iota.
  replace (length body + 2)%nat with (S (S (length body))) by lia.
  rewrite (list_lookup_middle body _ _ (length body)) by done.
  replace (body ++ [byte_of_Z (crc16 body mod 256);
                    byte_of_Z (crc16 body / 256)])
    with ((body ++ [byte_of_Z (crc16 body mod 256)])
            ++ [byte_of_Z (crc16 body / 256)])
    by (by rewrite <- app_assoc).
  rewrite (list_lookup_middle _ [] _ (S (length body)))
    by (rewrite length_app; simpl; lia).
  rewrite <- app_assoc, take_app_length.
  pose proof (crc16_range body) as Hc.
  rewrite !Z_of_byte_of_Z.
  rewrite !uint8_small by (Z.div_mod_to_equations; lia).
  destruct (Z.eqb_spec (crc16 body)
              (crc16 body mod 256 + 256 * (crc16 body / 256))) as [_|Hne];
    [reflexivity|].
  exfalso. apply Hne. Z.div_mod_to_equations; lia.
Qed.

Lemma words_of_bytes_of_words (ws : list Z) :
  words_of (bytes_of_words ws) = map uint16 ws.
Proof.
  induction ws as [|w ws IH]; [done|].
  cbn [bytes_of_words flat_map bytes_of_word app words_of map].
  fold (bytes_of_words ws). rewrite IH. f_equal.
  apply word_of_bytes, uint16_range.
Qed.

Lemma length_bytes_of_words (ws : list Z) :
  length (bytes_of_words ws) = (2 * length ws)%nat.
Proof.
  induction ws as [|w ws IH]; [done|].
  cbn [bytes_of_words flat_map bytes_of_word app length].
  fold (bytes_of_words ws). rewrite IH. lia.
Qed.


(** ** Requests of fixed layout *)

Lemma replicate_8 {A} (n : nat) (x : A) :
  (8 <= n)%nat ->
  replicate n x = [x; x; x; x; x; x; x; x] ++ replicate (n - 8) x.
Proof.
  intros Hn. replace n with (8 + (n - 8))%nat at 1 by lia.
  by rewrite replicate_add.
Qed.

Lemma uint16_idem (z : Z) : uint16 (uint16 z) = uint16 z.
Proof. apply uint16_small, uint16_range. Qed.

Lemma byte_of_Z_uint8 (z : Z) : byte_of_Z (uint8 z) = byte_of_Z z.
Proof.
  unfold byte_of_Z. by rewrite (uint8_small (uint8 z)) by apply uint8_range.
Qed.

Lemma ReadHoldingRegistersReq_encode_run
    (q : ReadHoldingRegistersReq.t) (x0 x1 x2 x3 x4 x5 x6 x7 : byte)
    (rest : list byte) :
  Msg.raw (msg q) = [x0; x1; x2; x3; x4; x5; x6; x7] ++ rest ->
  Msg.len (msg q) = 0%nat ->
  let frame :=
    [byte_of_Z (ReadHoldingRegistersReq.dev_addr q);
     byte_of_Z (ReadHoldingRegistersReq.function q)]
    ++ bytes_of_word (ReadHoldingRegistersReq.starting_addr q)
    ++ bytes_of_word (ReadHoldingRegistersReq.reg_count q) in
  ReadHoldingRegistersReq.encode q
  = (inr tt, stored (with_crc frame) rest q).
Proof.
  intros Hraw Hlen frame.
  assert (Hw : written q [] ([x0; x1; x2; x3; x4; x5; x6; x7] ++ rest))
    by (by split).
  cbn [app] in Hw.
  unfold ReadHoldingRegistersReq.encode. rewrite bind_gets. cbv beta.
  erewrite bind_inr by (by eapply push_u8_run). cbv beta.
  erewrite bind_inr by (eapply push_u8_run; apply written_stored). cbv beta.
  rewrite stored_stored.
  erewrite bind_inr by (eapply push_u16_run; apply written_stored). cbv beta.
  rewrite stored_stored.
  erewrite bind_inr by (eapply push_u16_run; apply written_stored). cbv beta.
  rewrite stored_stored.
  erewrite finalize_run by apply written_stored.
  by rewrite stored_stored.
Qed.

Lemma WriteSingleRegisterReq_encode_run
    (q : WriteSingleRegisterReq.t) (x0 x1 x2 x3 x4 x5 x6 x7 : byte)
    (rest : list byte) :
  Msg.raw (msg q) = [x0; x1; x2; x3; x4; x5; x6; x7] ++ rest ->
  Msg.len (msg q) = 0%nat ->
  let frame :=
    [byte_of_Z (WriteSingleRegisterReq.dev_addr q);
     byte_of_Z (WriteSingleRegisterReq.function q)]
    ++ bytes_of_word (WriteSingleRegisterReq.reg_off q)
    ++ bytes_of_word (WriteSingleRegisterReq.value q) in
  WriteSingleRegisterReq.encode q
  = (inr tt, stored (with_crc frame) rest q).
Proof.
  intros Hraw Hlen frame.
  assert (Hw : written q [] ([x0; x1; x2; x3; x4; x5; x6; x7] ++ rest))
    by (by split).
  cbn [app] in Hw.
  unfold WriteSingleRegisterReq.encode. rewrite bind_gets. cbv beta.
  erewrite bind_inr by (by eapply push_u8_run). cbv beta.
  erewrite bind_inr by (eapply push_u8_run; apply written_stored). cbv beta.
  rewrite stored_stored.
  erewrite bind_inr by (eapply push_u16_run; apply written_stored). cbv beta.
  rewrite stored_stored.
  erewrite bind_inr by (eapply push_u16_run; apply written_stored). cbv beta.
  rewrite stored_stored.
  erewrite finalize_run by apply written_stored.
  by rewrite stored_stored.
Qed.

Lemma WriteSingleRegisterReq_encode_bytes (raw_size : nat) (a off val : Z) :
  (8 <= raw_size)%nat ->
  let q := WriteSingleRegisterReq.make raw_size a off val in
  outcome WriteSingleRegisterReq.encode q = inr tt
  /\ Msg.bytes (msg (after WriteSingleRegisterReq.encode q))
     = with_crc ([byte_of_Z a; x06] ++ bytes_of_word off ++ bytes_of_word val).
Proof.
  intros Hn q.
  pose proof (WriteSingleRegisterReq_encode_run q x00 x00 x00 x00 x00 x00 x00
                x00 (replicate (raw_size - 8) x00)) as Hrun.
  cbv zeta in Hrun. unfold outcome, after. rewrite Hrun.
  - cbn [fst snd]. split; [done|]. rewrite bytes_stored.
    subst q. cbn [WriteSingleRegisterReq.make WriteSingleRegisterReq.dev_addr
                    WriteSingleRegisterReq.function
                    WriteSingleRegisterReq.reg_off
                    WriteSingleRegisterReq.value].
    unfold bytes_of_word. by rewrite byte_of_Z_uint8, !uint16_idem.
  - subst q. simpl. by apply replicate_8.
  - reflexivity.
Qed.

(** X7.  [ReadHoldingRegistersReq::encode], on a buffer of at least eight
    bytes: the frame is the address, function 0x03, the starting address and
    the register count (big-endian), then the CRC of these six bytes, low
    byte first; eight bytes in all. *)
Theorem ReadHoldingRegistersReq_encode_frame
    (raw_size : nat) (a reg_off cnt : Z) :
  (8 <= raw_size)%nat ->
  let q := ReadHoldingRegistersReq.make raw_size a reg_off cnt in
  let body :=
    [byte_of_Z a; x03] ++ bytes_of_word reg_off ++ bytes_of_word cnt in
  outcome ReadHoldingRegistersReq.encode q = inr tt
  /\ Msg.bytes (msg (after ReadHoldingRegistersReq.encode q))
     = body ++ crc_bytes body
  /\ Msg.len (msg (after ReadHoldingRegistersReq.encode q)) = 8%nat.
Proof.
  intros Hn q body.
  pose proof (ReadHoldingRegistersReq_encode_run q x00 x00 x00 x00 x00 x00 x00
                x00 (replicate (raw_size - 8) x00)) as Hrun.
  cbv zeta in Hrun. unfold outcome, after. rewrite Hrun.
  - cbn [fst snd]. split; [done|]. split; [|reflexivity].
    rewrite bytes_stored.
    subst q body.
    cbn [ReadHoldingRegistersReq.make ReadHoldingRegistersReq.dev_addr
           ReadHoldingRegistersReq.function
           ReadHoldingRegistersReq.starting_addr
           ReadHoldingRegistersReq.reg_count].
    unfold bytes_of_word, with_crc.
    by rewrite byte_of_Z_uint8, !uint16_idem.
  - subst q. simpl. by apply replicate_8.
  - reflexivity.
Qed.

Lemma ReadHoldingRegistersReq_encode_frame_witness :
  Msg.len (msg (after ReadHoldingRegistersReq.encode
                  (ReadHoldingRegistersReq.make 16 0x11 0x6B 3))) = 8%nat.
Proof.
  destruct (ReadHoldingRegistersReq_encode_frame 16 0x11 0x6B 3)
    as (_ & _ & Hl); [lia|exact Hl].
Defined.

(** X8.  [WriteSingleRegisterReq::encode], on a buffer of at least eight
    bytes: the frame is the address, function 0x06, the register offset and
    the value (big-endian), then the CRC of these six bytes, low byte
    first; eight bytes in all. *)
Theorem WriteSingleRegisterReq_encode_frame
    (raw_size : nat) (a off val : Z) :
  (8 <= raw_size)%nat ->
  let q := WriteSingleRegisterReq.make raw_size a off val in
  let body := [byte_of_Z a; x06] ++ bytes_of_word off ++ bytes_of_word val in
  outcome WriteSingleRegisterReq.encode q = inr tt
  /\ Msg.bytes (msg (after WriteSingleRegisterReq.encode q))
     = body ++ crc_bytes body
  /\ Msg.len (msg (after WriteSingleRegisterReq.encode q)) = 8%nat.
Proof.
  intros Hn q body.
  destruct (WriteSingleRegisterReq_encode_bytes raw_size a off val Hn)
    as [Hout Hbytes].
  split; [exact Hout|]. split; [exact Hbytes|].
  pose proof (WriteSingleRegisterReq_encode_run q x00 x00 x00 x00 x00 x00 x00
                x00 (replicate (raw_size - 8) x00)) as Hrun.
  cbv zeta in Hrun. unfold after. rewrite Hrun; [reflexivity| |reflexivity].
  subst q. simpl. by apply replicate_8.
Qed.

Lemma WriteSingleRegisterReq_encode_frame_witness :
  Msg.len (msg (after WriteSingleRegisterReq.encode
                  (WriteSingleRegisterReq.make 16 0x11 1 3))) = 8%nat.
Proof.
  destruct (WriteSingleRegisterReq_encode_frame 16 0x11 1 3)
    as (_ & _ & Hl); [lia|exact Hl].
Defined.


(** ** Responses of fixed layout *)

Lemma frame_of_length_8 (s : list byte) :
  length s = 8%nat ->
  exists a f b2 b3 b4 b5 lo hi, s = [a; f; b2; b3; b4; b5; lo; hi].
Proof.
  destruct s as [|a [|f [|b2 [|b3 [|b4 [|b5 [|lo [|hi [|]]]]]]]]];
    simpl; intros Hl; try lia.
  by exists a, f, b2, b3, b4, b5, lo, hi.
Qed.

Lemma WriteSingleRegisterResp_decode_run
    (r : WriteSingleRegisterResp.t) (a f oh ol vh vl lo hi : byte) :
  passes_validate r ->
  Msg.raw (msg r) = [a; f; oh; ol; vh; vl; lo; hi] ->
  let r' :=
    {| WriteSingleRegisterResp.base := Msg.set_len 0 (msg r);
       WriteSingleRegisterResp.dev_addr := Z_of_byte a;
       WriteSingleRegisterResp.function := Z_of_byte f;
       WriteSingleRegisterResp.reg_off := Z_of_byte oh * 256 + Z_of_byte ol;
       WriteSingleRegisterResp.value := Z_of_byte vh * 256 + Z_of_byte vl;
       WriteSingleRegisterResp.expected_reg_off :=
         WriteSingleRegisterResp.expected_reg_off r;
       WriteSingleRegisterResp.expected_value :=
         WriteSingleRegisterResp.expected_value r |} in
  WriteSingleRegisterResp.decode r
  = (raised (first_mismatch
               (WriteSingleRegisterResp_checks_spec r (Msg.raw (msg r)))),
     r').
Proof.
  intros Hv Hraw r'.
  destruct (validate_inv r Hv)
    as (body & lo' & hi' & Hraw' & _ & _ & Hval & Hu).
  assert (body = [a; f; oh; ol; vh; vl]) as ->.
  { rewrite Hraw in Hraw'.
    change [a; f; oh; ol; vh; vl; lo; hi]
      with ([a; f; oh; ol; vh; vl] ++ [lo; hi]) in Hraw'.
    by apply app_inj_2 in Hraw' as [? _]. }
  unfold WriteSingleRegisterResp_checks_spec. rewrite Hraw.
  change (u16_at [a; f; oh; ol; vh; vl; lo; hi] 2)
    with (Z_of_byte oh * 256 + Z_of_byte ol).
  change (u16_at [a; f; oh; ol; vh; vl; lo; hi] 4)
    with (Z_of_byte vh * 256 + Z_of_byte vl).
  unfold WriteSingleRegisterResp.decode.
  erewrite bind_inr by exact Hval. cbv beta.
  erewrite bind_inr
    by (eapply (pop_u16_snoc _ _ [a; f; oh; ol] vh vl); [exact Hu|done]).
  cbv beta. rewrite bind_modify.
  apply (in_use_chop _ _ [a; f; oh; ol] [vh; vl]) in Hu; [|done].
  erewrite bind_inr
    by (eapply (pop_u16_snoc _ _ [a; f] oh ol); [exact Hu|done]).
  cbv beta. rewrite bind_modify.
  apply (in_use_chop _ _ [a; f] [oh; ol]) in Hu; [|done].
  erewrite bind_inr by (eapply (pop_u8_snoc _ _ [a] f); [exact Hu|done]).
  cbv beta. rewrite bind_modify.
  apply (in_use_chop _ _ [a] [f]) in Hu; [|done].
  erewrite bind_inr by (eapply (pop_u8_snoc _ _ [] a); [exact Hu|done]).
  cbv beta. rewrite bind_modify, bind_gets. cbv beta.
  match goal with |- context [mbind _ _ ?st] => change st with r' end.
  change (WriteSingleRegisterResp.expected_reg_off r')
    with (WriteSingleRegisterResp.expected_reg_off r).
  cbn [first_mismatch].
  destruct (Z.eqb_spec (uint32 (Z_of_byte oh * 256 + Z_of_byte ol))
              (uint32 (WriteSingleRegisterResp.expected_reg_off r)))
    as [Hoff|Hoff].
  2:{ erewrite bind_inl by (by apply check_value_neq). reflexivity. }
  erewrite bind_inr by (by apply check_value_eq). cbv beta.
  rewrite bind_gets. cbv beta.
  change (WriteSingleRegisterResp.expected_value r')
    with (WriteSingleRegisterResp.expected_value r).
  destruct (WriteSingleRegisterResp.expected_value r) as [ev|]; [|reflexivity].
  cbn [first_mismatch].
  destruct (Z.eqb_spec (uint32 (Z_of_byte vh * 256 + Z_of_byte vl)) (uint32 ev))
    as [Hev|Hev].
  - by rewrite check_value_eq.
  - by rewrite check_value_neq.
Qed.

(** X9.  [WriteSingleRegisterResp::decode] on a frame that passes
    [validate()]: only the register offset and, when one was given to the
    constructor, the value are compared, in that order; the echoed function
    code and device address are stored and never compared.  All four fields
    are overwritten with what the frame holds whether or not the response is
    accepted, and no byte is left. *)
Theorem WriteSingleRegisterResp_decode_checks
    (r : WriteSingleRegisterResp.t) :
  passes_validate r ->
  Msg.len (msg r) = 8%nat ->
  let rx := Msg.raw (msg r) in
  outcome WriteSingleRegisterResp.decode r
    = raised (first_mismatch (WriteSingleRegisterResp_checks_spec r rx))
  /\ after WriteSingleRegisterResp.decode r
     = {| WriteSingleRegisterResp.base := Msg.set_len 0 (msg r);
          WriteSingleRegisterResp.dev_addr := u8_at rx 0;
          WriteSingleRegisterResp.function := u8_at rx 1;
          WriteSingleRegisterResp.reg_off := u16_at rx 2;
          WriteSingleRegisterResp.value := u16_at rx 4;
          WriteSingleRegisterResp.expected_reg_off :=
            WriteSingleRegisterResp.expected_reg_off r;
          WriteSingleRegisterResp.expected_value :=
            WriteSingleRegisterResp.expected_value r |}.
Proof.
  intros Hv Hlen rx.
  destruct (validate_inv r Hv) as (body & lo & hi & _ & Hl & _).
  destruct (frame_of_length_8 (Msg.raw (msg r)))
    as (a & f & oh & ol & vh & vl & lo' & hi' & Hraw); [lia|].
  unfold outcome, after.
  rewrite
    (WriteSingleRegisterResp_decode_run r a f oh ol vh vl lo' hi' Hv Hraw).
  cbn [fst snd]. split; [done|]. subst rx. by rewrite Hraw.
Qed.

Lemma WriteSingleRegisterResp_decode_checks_witness :
  outcome WriteSingleRegisterResp.decode
    (received [x11; x06; x00; x01; x00; x03; x9a; x9b]
       (WriteSingleRegisterResp.make_val 253 0x11 1 4))
  = inl (bad_resp_error "value" 4 3).
Proof.
  destruct (WriteSingleRegisterResp_decode_checks
              (received [x11; x06; x00; x01; x00; x03; x9a; x9b]
                 (WriteSingleRegisterResp.make_val 253 0x11 1 4)))
    as [Hout _]; [vm_compute; reflexivity|reflexivity|exact Hout].
Defined.

(** X10.  The frame [WriteSingleRegisterReq::encode] builds for (a, off,
    val), handed back as the response, is accepted by the
    [WriteSingleRegisterResp] built for the same (a, off, val), and the
    response then holds that address, offset and value. *)
Theorem WriteSingleRegister_echo_accepted
    (raw_size raw_size' : nat) (a off val : Z) :
  (8 <= raw_size)%nat ->
  let req := WriteSingleRegisterReq.make raw_size a off val in
  let frame := Msg.bytes (msg (after WriteSingleRegisterReq.encode req)) in
  let resp :=
    received frame (WriteSingleRegisterResp.make_val raw_size' a off val) in
  outcome WriteSingleRegisterReq.encode req = inr tt
  /\ outcome WriteSingleRegisterResp.decode resp = inr tt
  /\ WriteSingleRegisterResp.dev_addr
       (after WriteSingleRegisterResp.decode resp) = uint8 a
  /\ WriteSingleRegisterResp.reg_off
       (after WriteSingleRegisterResp.decode resp) = uint16 off
  /\ WriteSingleRegisterResp.value
       (after WriteSingleRegisterResp.decode resp) = uint16 val.
Proof.
  intros Hn req frame resp.
  destruct (WriteSingleRegisterReq_encode_bytes raw_size a off val Hn)
    as [Hout Hbytes].
  split; [exact Hout|].
  assert (Hframe : frame = with_crc ([byte_of_Z a; x06] ++ bytes_of_word off
                                       ++ bytes_of_word val))
    by exact Hbytes.
  clearbody frame. subst frame.
  assert (Hv : passes_validate resp).
  { apply (validate_with_crc resp ([byte_of_Z a; x06] ++ bytes_of_word off
                                     ++ bytes_of_word val)); reflexivity. }
  unfold outcome, after.
  rewrite (WriteSingleRegisterResp_decode_run resp
             (byte_of_Z a) x06
             (byte_of_Z (uint16 off / 256)) (byte_of_Z (uint16 off mod 256))
             (byte_of_Z (uint16 val / 256)) (byte_of_Z (uint16 val mod 256))
             (byte_of_Z (crc16 ([byte_of_Z a; x06] ++ bytes_of_word off
                                  ++ bytes_of_word val) mod 256))
             (byte_of_Z (crc16 ([byte_of_Z a; x06] ++ bytes_of_word off
                                  ++ bytes_of_word val) / 256))
             Hv eq_refl).
  cbn [fst snd WriteSingleRegisterResp.dev_addr WriteSingleRegisterResp.reg_off
         WriteSingleRegisterResp.value].
  rewrite !(word_of_bytes (uint16 _)) by apply uint16_range.
  rewrite Z_of_byte_of_Z. split; [|done].
  unfold WriteSingleRegisterResp_checks_spec.
  change (Msg.raw (msg resp))
    with ([byte_of_Z a; x06; byte_of_Z (uint16 off / 256);
           byte_of_Z (uint16 off mod 256); byte_of_Z (uint16 val / 256);
           byte_of_Z (uint16 val mod 256)]
            ++ crc_bytes ([byte_of_Z a; x06] ++ bytes_of_word off
                            ++ bytes_of_word val)).
  cbn [app]. unfold u16_at, u8_at. cbn [lookup list_lookup from_option].
  rewrite !(word_of_bytes (uint16 _)) by apply uint16_range.
  cbn [WriteSingleRegisterResp.expected_reg_off
         WriteSingleRegisterResp.expected_value resp received with_msg
         WriteSingleRegisterResp.is_msg WriteSingleRegisterResp.make_val
         first_mismatch].
  by rewrite !Z.eqb_refl.
Qed.

Lemma WriteSingleRegister_echo_accepted_witness :
  outcome WriteSingleRegisterResp.decode
    (received
       (Msg.bytes (msg (after WriteSingleRegisterReq.encode
                          (WriteSingleRegisterReq.make 16 0x11 1 3))))
       (WriteSingleRegisterResp.make_val 16 0x11 1 3)) = inr tt.
Proof.
  destruct (WriteSingleRegister_echo_accepted 16 16 0x11 1 3)
    as (_ & Hd & _); [lia|exact Hd].
Defined.




(** ** Read Holding Registers, in full *)

Lemma ReadHoldingRegistersResp_decode_outcome
    (r : ReadHoldingRegistersResp.t) :
  passes_validate r ->
  Msg.len (msg r) = (5 + 2 * length (ReadHoldingRegistersResp.regs r))%nat ->
  let rx := Msg.raw (msg r) in
  let n := length (ReadHoldingRegistersResp.regs r) in
  ReadHoldingRegistersResp.decode r
  = (raised (first_mismatch (ReadHoldingRegistersResp_checks_spec n rx)),
     {| ReadHoldingRegistersResp.base := Msg.set_len 0 (msg r);
        ReadHoldingRegistersResp.regs := words_of (take (2 * n) (drop 3 rx));
        ReadHoldingRegistersResp.byte_count := u8_at rx 2;
        ReadHoldingRegistersResp.function := u8_at rx 1;
        ReadHoldingRegistersResp.dev_addr := u8_at rx 0 |}).
Proof.
  intros Hv Hlen rx n.
  destruct (validate_inv r Hv) as (body & lo & hi & Hraw & Hl & _).
  assert (Hbl : length body = (3 + 2 * n)%nat).
  { rewrite Hl, Hraw, length_app in Hlen. cbn [length] in Hlen. lia. }
  destruct (list_split_first3 body _ Hbl) as (a & f & bc & data & -> & Hd).
  assert (Hrx : rx = [a; f; bc] ++ data ++ [lo; hi])
    by (subst rx; rewrite Hraw; by rewrite <- app_assoc).
  rewrite (ReadHoldingRegistersResp_decode_run r a f bc lo hi data Hv);
    [|by rewrite <- Hrx|exact Hd].
  clearbody rx. subst rx.
  unfold ReadHoldingRegistersResp_checks_spec.
  cbn [app drop]. rewrite drop_0, take_app_length' by done.
  change (u8_at (a :: f :: bc :: data ++ [lo; hi]) 0) with (Z_of_byte a).
  change (u8_at (a :: f :: bc :: data ++ [lo; hi]) 1) with (Z_of_byte f).
  change (u8_at (a :: f :: bc :: data ++ [lo; hi]) 2) with (Z_of_byte bc).
  rewrite (length_words_of n data Hd).
  cbn [first_mismatch].
  unfold ReadHoldingRegistersResp.expected_function.
  destruct (Z.eqb_spec (uint32 (Z_of_byte f)) (uint32 READ_HOLDING_REGISTERS));
    [erewrite bind_inr by (by apply check_value_eq); cbv beta
    |erewrite bind_inl by (by apply check_value_neq); reflexivity].
  destruct (Z.eqb_spec (uint32 (Z_of_byte bc)) (uint32 (Z.of_nat n * 2)));
    [rewrite check_value_eq by done|rewrite check_value_neq by done];
    reflexivity.
Qed.

(** X12.  [ReadHoldingRegistersResp::decode] on a frame that passes
    [validate()]: the function code is compared with 0x03, then the byte
    count with twice the number of registers expected; nothing else is.  The
    registers are filled with the words of the frame in wire order, and the
    byte count, function code and device address with the bytes echoed,
    whether or not the response is accepted; no byte is left. *)
Theorem ReadHoldingRegistersResp_decode_checks
    (raw_size : nat) (regs : list Z) (resp : ReadHoldingRegistersResp.t)
    (rx : list byte) :
  ReadHoldingRegistersResp.make raw_size regs = inr resp ->
  passes_validate (received rx resp) ->
  let n := length regs in
  outcome ReadHoldingRegistersResp.decode (received rx resp)
    = raised (first_mismatch (ReadHoldingRegistersResp_checks_spec n rx))
  /\ after ReadHoldingRegistersResp.decode (received rx resp)
     = {| ReadHoldingRegistersResp.base :=
            Msg.set_len 0 (msg (received rx resp));
          ReadHoldingRegistersResp.regs := words_of (take (2 * n) (drop 3 rx));
          ReadHoldingRegistersResp.byte_count := u8_at rx 2;
          ReadHoldingRegistersResp.function := u8_at rx 1;
          ReadHoldingRegistersResp.dev_addr := u8_at rx 0 |}.
Proof.
  intros Hmk Hv n.
  assert (Hresp : ReadHoldingRegistersResp.regs resp = regs
                  /\ Msg.len (msg resp) = (5 + 2 * length regs)%nat).
  { unfold ReadHoldingRegistersResp.make in Hmk.
    destruct (length regs =? 0)%nat; [done|]. by injection Hmk as <-. }
  destruct Hresp as [Hregs Hlen].
  pose proof (ReadHoldingRegistersResp_decode_outcome (received rx resp) Hv)
    as Hrun.
  cbv zeta in Hrun.
  change (ReadHoldingRegistersResp.regs (received rx resp))
    with (ReadHoldingRegistersResp.regs resp) in Hrun.
  change (Msg.raw (msg (received rx resp))) with rx in Hrun.
  rewrite Hregs in Hrun.
  unfold outcome, after. rewrite Hrun; [by split|exact Hlen].
Qed.

Lemma ReadHoldingRegistersResp_decode_checks_witness :
  exists resp,
    ReadHoldingRegistersResp.make 253 [0] = inr resp
    /\ ReadHoldingRegistersResp.regs
         (after ReadHoldingRegistersResp.decode
            (received [x11; x03; x02; x00; x2a; xf8; x58] resp)) = [42].
Proof.
  eexists. split; [reflexivity|].
  destruct (ReadHoldingRegistersResp_decode_checks 253 [0] _
              [x11; x03; x02; x00; x2a; xf8; x58] eq_refl) as [_ Ha];
    [vm_compute; reflexivity|].
  rewrite Ha. reflexivity.
Defined.

(** X13.  A Read Holding Registers response built for 128 registers or more
    can never be accepted: the byte count of a frame is one byte and cannot
    equal twice the register count, so [decode] raises a [bad_resp_error] on
    every frame that passes [validate()]. *)
Theorem ReadHoldingRegistersResp_decode_count_limit
    (raw_size : nat) (regs : list Z) (resp : ReadHoldingRegistersResp.t)
    (rx : list byte) :
  ReadHoldingRegistersResp.make raw_size regs = inr resp ->
  passes_validate (received rx resp) ->
  128 <= Z.of_nat (length regs) < 2 ^ 31 ->
  exists what expected_value value,
    outcome ReadHoldingRegistersResp.decode (received rx resp)
    = inl (bad_resp_error what expected_value value).
Proof.
  intros Hmk Hv Hn.
  assert (Hresp : ReadHoldingRegistersResp.regs resp = regs
                  /\ Msg.len (msg resp) = (5 + 2 * length regs)%nat).
  { unfold ReadHoldingRegistersResp.make in Hmk.
    destruct (length regs =? 0)%nat; [done|]. by injection Hmk as <-. }
  destruct Hresp as [Hregs Hlen].
  pose proof (ReadHoldingRegistersResp_decode_outcome (received rx resp) Hv)
    as Hrun.
  cbv zeta in Hrun.
  change (ReadHoldingRegistersResp.regs (received rx resp))
    with (ReadHoldingRegistersResp.regs resp) in Hrun.
  change (Msg.raw (msg (received rx resp))) with rx in Hrun.
  rewrite Hregs in Hrun.
  unfold outcome. rewrite Hrun by exact Hlen. cbn [fst].
  destruct (first_mismatch _) as [e|] eqn:Hfm.
  - destruct (first_mismatch_is_bad_resp _ _ Hfm) as (w & ev & v & ->).
    by exists w, ev, v.
  - exfalso. apply first_mismatch_None in Hfm.
    unfold ReadHoldingRegistersResp_checks_spec in Hfm.
    apply Forall_cons in Hfm as [_ Hfm].
    apply Forall_cons in Hfm as [Hbc _]. cbn [fst snd] in Hbc.
    assert (Hb : 0 <= u8_at rx 2 < 256).
    { unfold u8_at. destruct (rx !! 2%nat) as [b|]; simpl;
        [apply Z_of_byte_range|lia]. }
    rewrite !uint32_small in Hbc by lia. lia.
Qed.

Lemma ReadHoldingRegistersResp_decode_count_limit_witness :
  exists resp what expected_value value,
    ReadHoldingRegistersResp.make 0 (replicate 128 0) = inr resp
    /\ outcome ReadHoldingRegistersResp.decode
         (received (with_crc ([x11; x03; x00] ++ replicate 256 x00)) resp)
       = inl (bad_resp_error what expected_value value).
Proof.
  eexists.
  destruct (ReadHoldingRegistersResp_decode_count_limit 0 (replicate 128 0) _
              (with_crc ([x11; x03; x00] ++ replicate 256 x00)) eq_refl)
    as (w & ev & v & Hd);
    [vm_compute; reflexivity|rewrite length_replicate; lia|].
  exists w, ev, v. split; [reflexivity|exact Hd].
Defined.

(** X14.  Round trip of a Read Holding Registers exchange: the frame a
    device sends for [n] registers ([n <= 127]), that is its address,
    0x03, the byte count [2 n], the registers big-endian and the CRC, is
    accepted, and the registers are recovered in order. *)
Theorem ReadHoldingRegistersResp_decode_round_trip
    (raw_size : nat) (regs words : list Z) (a : Z)
    (resp : ReadHoldingRegistersResp.t) :
  ReadHoldingRegistersResp.make raw_size regs = inr resp ->
  length words = length regs ->
  (length regs <= 127)%nat ->
  let rx :=
    with_crc ([byte_of_Z a; x03; byte_of_Z (Z.of_nat (length regs) * 2)]
                ++ bytes_of_words words) in
  outcome ReadHoldingRegistersResp.decode (received rx resp) = inr tt
  /\ ReadHoldingRegistersResp.regs
       (after ReadHoldingRegistersResp.decode (received rx resp))
     = map uint16 words
  /\ ReadHoldingRegistersResp.dev_addr
       (after ReadHoldingRegistersResp.decode (received rx resp)) = uint8 a.
Proof.
  intros Hmk Hw Hn rx.
  assert (Hresp : ReadHoldingRegistersResp.regs resp = regs
                  /\ Msg.len (msg resp) = (5 + 2 * length regs)%nat).
  { unfold ReadHoldingRegistersResp.make in Hmk.
    destruct (length regs =? 0)%nat; [done|]. by injection Hmk as <-. }
  destruct Hresp as [Hregs Hlen].
  assert (Hv : passes_validate (received rx resp)).
  { apply (validate_with_crc _
             ([byte_of_Z a; x03; byte_of_Z (Z.of_nat (length regs) * 2)]
                ++ bytes_of_words words)); [reflexivity|].
    change (Msg.len (msg (received rx resp))) with (Msg.len (msg resp)).
    rewrite Hlen, length_app, length_bytes_of_words, Hw. simpl. lia. }
  pose proof (ReadHoldingRegistersResp_decode_outcome (received rx resp) Hv)
    as Hrun.
  cbv zeta in Hrun.
  change (ReadHoldingRegistersResp.regs (received rx resp))
    with (ReadHoldingRegistersResp.regs resp) in Hrun.
  change (Msg.raw (msg (received rx resp))) with rx in Hrun.
  rewrite Hregs in Hrun.
  unfold outcome, after. rewrite Hrun by exact Hlen.
  cbn [fst snd ReadHoldingRegistersResp.regs ReadHoldingRegistersResp.dev_addr].
  subst rx. unfold with_crc, ReadHoldingRegistersResp_checks_spec.
  cbn [app drop u8_at lookup list_lookup from_option].
  rewrite drop_0, take_app_length' by (by rewrite length_bytes_of_words, Hw).
  rewrite words_of_bytes_of_words, !Z_of_byte_of_Z.
  split; [|done].
  change (Z_of_byte x03) with READ_HOLDING_REGISTERS.
  cbn [first_mismatch]. rewrite Z.eqb_refl.
  rewrite (uint8_small (Z.of_nat (length regs) * 2)) by lia.
  by rewrite Z.eqb_refl.
Qed.

Lemma ReadHoldingRegistersResp_decode_round_trip_witness :
  exists resp,
    ReadHoldingRegistersResp.make 253 [0; 0] = inr resp
    /\ ReadHoldingRegistersResp.regs
         (after ReadHoldingRegistersResp.decode
            (received
               (with_crc ([byte_of_Z 0x11; x03; byte_of_Z 4]
                            ++ bytes_of_words [0x1234; 0xABCD])) resp))
       = [0x1234; 0xABCD].
Proof.
  eexists. split; [reflexivity|].
  destruct (ReadHoldingRegistersResp_decode_round_trip 253 [0; 0]
              [0x1234; 0xABCD] 0x11 _ eq_refl) as (_ & Hr & _);
    [reflexivity|simpl; lia|exact Hr].
Defined.


(** ** Read File Record, continued *)

Lemma u8_at_range (bs : list byte) (i : nat) : 0 <= u8_at bs i < 256.
Proof.
  unfold u8_at. destruct (bs !! i) as [b|]; simpl;
    [apply Z_of_byte_range|lia].
Qed.

Lemma first_mismatch_big_record (ns : list nat) (bs : list byte)
    (rest : list (string * Z * Z)) :
  (sum_list_with (fun n => 2 + 2 * n) ns <= length bs)%nat ->
  Exists (fun n => 128 <= Z.of_nat n < 2 ^ 31) ns ->
  first_mismatch
    (flat_map record_checks (reverse (record_fields ns bs)) ++ rest) <> None.
Proof.
  revert bs rest. induction ns as [|n ns IH]; intros bs rest Hl Hex.
  - by apply Exists_nil in Hex.
  - cbn [sum_list_with] in Hl. cbn [record_fields].
    rewrite reverse_cons, flat_map_app, <- app_assoc.
    apply Exists_cons in Hex as [Hbig|Hex].
    + rewrite first_mismatch_app.
      destruct (first_mismatch (flat_map _ _)); [done|].
      cbn [flat_map record_checks app first_mismatch].
      destruct (_ =? _); [|done].
      assert (Hws : length (words_of (take (2 * n) (drop 2 bs))) = n).
      { apply length_words_of. rewrite length_take, length_drop. lia. }
      rewrite Hws.
      pose proof (u8_at_range bs 0) as Hb.
      destruct (Z.eqb_spec (uint32 (u8_at bs 0))
                  (uint32 (1 + Z.of_nat n * 2))) as [Heq|]; [|done].
      rewrite !uint32_small in Heq by lia. lia.
    + apply IH; [rewrite length_drop; lia|done].
Qed.

(** X15.  A Read File Record response that expects a record of 128 words or
    more can never be accepted: the field length of a sub-response is one
    byte and cannot equal [1 + 2 * 128] or more, so [decode] raises a
    [bad_resp_error] on every frame that passes [validate()]. *)
Theorem ReadFileRecordResp_decode_record_limit
    (raw_size : nat) (a : Z) (recs : list FileRecord.t) (rx : list byte) :
  let r := received rx (ReadFileRecordResp.make raw_size a recs) in
  passes_validate r ->
  Exists (fun rec => 128 <= Z.of_nat (record_size rec) < 2 ^ 31) recs ->
  exists what expected_value value,
    outcome ReadFileRecordResp.decode r
    = inl (bad_resp_error what expected_value value).
Proof.
  intros r Hv Hex.
  destruct (ReadFileRecordResp_decode_run r Hv) as [Hout _]; [reflexivity|].
  cbv zeta in Hout.
  change (ReadFileRecordResp.dev_addr r) with (uint8 a) in Hout.
  change (ReadFileRecordResp.records r) with recs in Hout.
  change (Msg.raw (msg r)) with rx in Hout.
  rewrite Hout.
  destruct (first_mismatch _) as [e|] eqn:Hfm.
  - destruct (first_mismatch_is_bad_resp _ _ Hfm) as (w & ev & v & ->).
    by exists w, ev, v.
  - exfalso. revert Hfm. unfold ReadFileRecordResp_checks_spec.
    apply first_mismatch_big_record.
    + destruct (validate_inv r Hv) as (body & lo & hi & Hraw & Hlen & _).
      cbn in Hraw, Hlen. rewrite expected_len_sum in Hlen.
      rewrite sum_list_with_map, length_drop. lia.
    + apply Exists_fmap. exact Hex.
Qed.

Lemma ReadFileRecordResp_decode_record_limit_witness :
  exists what expected_value value,
    outcome ReadFileRecordResp.decode
      (received (with_crc ([x11; x14; x00; x01; x06] ++ replicate 256 x00))
         (ReadFileRecordResp.make 0 0x11
            [FileRecord.mk 4 1 (replicate 128 0)]))
    = inl (bad_resp_error what expected_value value).
Proof.
  apply (ReadFileRecordResp_decode_record_limit 0 0x11
           [FileRecord.mk 4 1 (replicate 128 0)]
           (with_crc ([x11; x14; x00; x01; x06] ++ replicate 256 x00))).
  - vm_compute. reflexivity.
  - apply Exists_cons_hd. unfold record_size. cbn [FileRecord.data].
    rewrite length_replicate. lia.
Defined.

Lemma bytes_of_word_uint16 (w : Z) : bytes_of_word (uint16 w) = bytes_of_word w.
Proof. unfold bytes_of_word. by rewrite uint16_idem. Qed.

Lemma push_bytes_of_word {Obj} `{IsMsg Obj} (s : Obj) (pre post : list byte)
    (x y : byte) (d : Z) :
  written s pre (x :: y :: post) ->
  push_u16 d s = (inr tt, stored (pre ++ bytes_of_word d) post s).
Proof. apply push_u16_run. Qed.

Lemma ReadFileRecordReq_encode_records_run (recs : list FileRecord.t) :
  forall (s : ReadFileRecordReq.t) (pre fill post : list byte),
    written s pre (fill ++ post) ->
    length fill = (7 * length recs)%nat ->
    ReadFileRecordReq.encode_records recs s
    = (inr tt, stored (pre ++ flat_map record_request_bytes recs) post s).
Proof.
  induction recs as [|rec recs IH]; intros s pre fill post Hw Hl.
  - destruct fill; [|done]. cbn [ReadFileRecordReq.encode_records flat_map].
    rewrite app_nil_r. destruct Hw as [Hraw Hlen].
    unfold stored. cbn [app] in Hraw. rewrite <- Hraw, <- Hlen.
    replace {| Msg.raw := Msg.raw (msg s); Msg.len := Msg.len (msg s);
               Msg.addr := Msg.addr (msg s) |} with (msg s)
      by (by destruct (msg s)).
    by rewrite with_msg_msg.
  - cbn [length] in Hl.
    destruct fill as [|x0 [|x1 [|x2 [|x3 [|x4 [|x5 [|x6 fill]]]]]]];
      cbn [length] in Hl; try lia.
    cbn [app] in Hw.
    cbn [ReadFileRecordReq.encode_records].
    erewrite bind_inr by (by eapply push_u8_run). cbv beta.
    erewrite bind_inr
      by (eapply push_bytes_of_word; apply written_stored). cbv beta.
    rewrite stored_stored.
    erewrite bind_inr
      by (eapply push_bytes_of_word; apply written_stored). cbv beta.
    rewrite stored_stored.
    erewrite bind_inr
      by (eapply push_bytes_of_word; apply written_stored). cbv beta.
    rewrite stored_stored.
    erewrite IH; [|apply written_stored|lia].
    rewrite stored_stored. f_equal. f_equal.
    cbn [flat_map]. unfold record_request_bytes at 2.
    rewrite bytes_of_word_uint16. by rewrite <- !app_assoc.
Qed.

Lemma ReadFileRecordReq_patch_bytes_run (s : ReadFileRecordReq.t) :
  ReadFileRecordReq.patch_bytes s
  = (inr tt,
     with_msg
       (Msg.set_raw
          (<[2%nat := byte_of_Z (uint8 (Z.of_nat (Msg.len (msg s)) - 3))]>
             (Msg.raw (msg s))) (msg s)) s).
Proof. reflexivity. Qed.

(** X16.  [ReadFileRecordReq::encode], on a buffer with room for the frame:
    the frame is the address, function 0x14, a byte count, then for each
    record, in order, the reference type 0x06, the file number, the record
    number and the number of words asked for (big-endian), then the CRC.
    The byte count, written back once the records are appended and before
    the CRC is computed, is [7 * records] as one byte. *)
Theorem ReadFileRecordReq_encode_frame
    (raw_size : nat) (a : Z) (recs : list FileRecord.t) :
  (5 + 7 * length recs <= raw_size)%nat ->
  let q := ReadFileRecordReq.make raw_size a recs in
  let body :=
    [byte_of_Z a; x14; byte_of_Z (7 * Z.of_nat (length recs))]
    ++ flat_map record_request_bytes recs in
  outcome ReadFileRecordReq.encode q = inr tt
  /\ Msg.bytes (msg (after ReadFileRecordReq.encode q)) = body ++ crc_bytes body
  /\ Msg.len (msg (after ReadFileRecordReq.encode q))
     = (5 + 7 * length recs)%nat.
Proof.
  intros Hn q body.
  set (k := (raw_size - (5 + 7 * length recs))%nat).
  assert (Hraw : Msg.raw (msg q)
                 = [x00; x00; x00] ++ replicate (7 * length recs) x00
                   ++ [x00; x00] ++ replicate k x00).
  { subst q. cbn [msg ReadFileRecordReq.is_msg ReadFileRecordReq.make
                    ReadFileRecordReq.base Msg.set_addr Msg.fresh Msg.raw].
    change [x00; x00; x00] with (replicate 3 x00).
    change [x00; x00] with (replicate 2 x00).
    rewrite <- !replicate_add. f_equal. lia. }
  assert (Hrun : ReadFileRecordReq.encode q
                 = (inr tt, stored (with_crc body) (replicate k x00) q)).
  { unfold ReadFileRecordReq.encode. rewrite bind_gets. cbv beta.
    assert (Hw : written q [] (x00 :: x00 :: x00 ::
                   replicate (7 * length recs) x00 ++ x00 :: x00 ::
                   replicate k x00)) by (by split).
    erewrite bind_inr by (by eapply push_u8_run). cbv beta.
    erewrite bind_inr by (eapply push_u8_run; apply written_stored). cbv beta.
    rewrite stored_stored.
    erewrite bind_inr by (eapply push_u8_run; apply written_stored). cbv beta.
    rewrite stored_stored.
    erewrite bind_inr
      by (eapply ReadFileRecordReq_encode_records_run;
          [apply written_stored|by rewrite length_replicate]).
    cbv beta. rewrite stored_stored.
    erewrite bind_inr by apply ReadFileRecordReq_patch_bytes_run. cbv beta.
    match goal with |- finalize ?st = _ =>
      assert (Hw' : written st body (x00 :: x00 :: replicate k x00)) end.
    { assert (Hrl : length (flat_map record_request_bytes recs)
                    = (7 * length recs)%nat).
      { clear. induction recs as [|r recs IH]; [done|].
        cbn [flat_map]. rewrite length_app, IH. simpl. lia. }
      unfold written, stored. rewrite !msg_with_msg.
      unfold id. subst body q.
      cbn [ReadFileRecordReq.make ReadFileRecordReq.dev_addr
             ReadFileRecordReq.function ReadFileRecordReq.records
             Msg.raw Msg.set_raw Msg.len app length insert list_insert].
      rewrite Hrl, !byte_of_Z_uint8.
      change (byte_of_Z READ_FILE_RECORD) with x14.
      split.
      - replace (Z.of_nat (S (S (S (7 * length recs)))) - 3)
          with (7 * Z.of_nat (length recs)) by lia.
        reflexivity.
      - reflexivity. }
    rewrite (finalize_run _ _ _ _ _ Hw').
    unfold stored. by rewrite !msg_with_msg, !with_msg_with_msg. }
  unfold outcome, after. rewrite Hrun. cbn [fst snd].
  split; [done|]. split; [apply bytes_stored|].
  unfold stored. rewrite msg_with_msg. cbn [Msg.len].
  unfold with_crc, crc_bytes. subst body. rewrite !length_app.
  assert (Hrl : length (flat_map record_request_bytes recs)
                = (7 * length recs)%nat).
  { clear. induction recs as [|r recs IH]; [done|].
    cbn [flat_map]. rewrite length_app, IH. simpl. lia. }
  rewrite Hrl. simpl. lia.
Qed.

Lemma ReadFileRecordReq_encode_frame_witness :
  Msg.len (msg (after ReadFileRecordReq.encode
                  (ReadFileRecordReq.make 16 0x11 example_records)))
  = 12%nat.
Proof.
  destruct (ReadFileRecordReq_encode_frame 16 0x11 example_records)
    as (_ & _ & Hl); [simpl; lia|exact Hl].
Defined.


(** The fields of a sub-response as the device encodes them. *)
Lemma length_record_response_bytes (ws : list Z) :
  length (record_response_bytes ws) = (2 + 2 * length ws)%nat.
Proof.
  unfold record_response_bytes. rewrite length_app, length_bytes_of_words.
  reflexivity.
Qed.

Lemma record_fields_response (datas : list (list Z)) (rest : list byte) :
  record_fields (map length datas)
    (flat_map record_response_bytes datas ++ rest)
  = map (fun ws => (uint8 (1 + Z.of_nat (length ws) * 2), 0x06,
                    map uint16 ws)) datas.
Proof.
  induction datas as [|ws datas IH]; [done|].
  cbn [map flat_map record_fields]. rewrite <- app_assoc.
  f_equal.
  - unfold record_response_bytes. cbn [app].
    unfold u8_at. cbn [lookup list_lookup from_option drop].
    rewrite Z_of_byte_of_Z, drop_0.
    rewrite take_app_length'
      by (by rewrite length_bytes_of_words).
    by rewrite words_of_bytes_of_words.
  - rewrite drop_app_length' by (by rewrite length_record_response_bytes).
    exact IH.
Qed.

Lemma first_mismatch_records_pass (fields : list (Z * Z * list Z))
    (rest : list (string * Z * Z)) :
  Forall (fun fld =>
            uint32 (snd (fst fld)) = uint32 0x6
            /\ uint32 (fst (fst fld))
               = uint32 (1 + Z.of_nat (length (snd fld)) * 2)) fields ->
  first_mismatch (flat_map record_checks fields ++ rest) = first_mismatch rest.
Proof.
  induction 1 as [|[[flen ref] ws] fields [Href Hflen] _ IH]; [done|].
  cbn [flat_map record_checks app first_mismatch fst snd] in *.
  rewrite Href, Hflen, !Z.eqb_refl. exact IH.
Qed.

Lemma record_sizes_agree (recs : list FileRecord.t) (datas : list (list Z)) :
  Forall2 (fun rec ws => record_size rec = length ws) recs datas ->
  map record_size recs = map length datas.
Proof.
  induction 1 as [|rec ws recs datas Hs _ IH]; [done|].
  cbn [map]. by rewrite Hs, IH.
Qed.

(** X17.  Round trip of a Read File Record exchange: the frame a device
    sends for the records asked for, that is its address, 0x14, the byte
    count, then for each record the field length [1 + 2 n], the reference
    type 0x06 and the [n] words big-endian, and the CRC, is accepted when
    the byte count fits its byte; each record then holds its words, in
    order, and keeps its file and record numbers. *)
Theorem ReadFileRecordResp_decode_round_trip
    (raw_size : nat) (a : Z) (recs : list FileRecord.t)
    (datas : list (list Z)) :
  Forall2 (fun rec ws => record_size rec = length ws) recs datas ->
  (sum_list_with (fun ws => 2 + 2 * length ws) datas <= 255)%nat ->
  let data_len :=
    Z.of_nat (sum_list_with (fun ws => 2 + 2 * length ws)%nat datas) in
  let rx :=
    with_crc ([byte_of_Z a; x14; byte_of_Z data_len]
                ++ flat_map record_response_bytes datas) in
  let r := received rx (ReadFileRecordResp.make raw_size a recs) in
  outcome ReadFileRecordResp.decode r = inr tt
  /\ ReadFileRecordResp.records (after ReadFileRecordResp.decode r)
     = zip_with (fun ws rec => FileRecord.set_data (map uint16 ws) rec)
         datas recs.
Proof.
  intros Hsz Hsum data_len rx r.
  pose proof (record_sizes_agree recs datas Hsz) as Hsizes.
  assert (Hfl : length (flat_map record_response_bytes datas)
                = sum_list_with (fun ws => 2 + 2 * length ws)%nat datas).
  { clear. induction datas as [|ws datas IH]; [done|].
    cbn [flat_map sum_list_with].
    by rewrite length_app, length_record_response_bytes, IH. }
  assert (Hsum' : sum_list_with (fun x => 2 + 2 * record_size x)%nat recs
                  = sum_list_with (fun ws => 2 + 2 * length ws)%nat datas).
  { rewrite <- (sum_list_with_map (fun n => 2 + 2 * n)%nat record_size),
      <- (sum_list_with_map (fun n => 2 + 2 * n)%nat length).
    by rewrite Hsizes. }
  assert (Hv : passes_validate r).
  { apply (validate_with_crc r
             ([byte_of_Z a; x14; byte_of_Z data_len]
                ++ flat_map record_response_bytes datas)); [reflexivity|].
    change (Msg.len (msg r)) with (ReadFileRecordResp.expected_len recs).
    rewrite expected_len_sum, Hsum', length_app, Hfl. simpl. lia. }
  destruct (ReadFileRecordResp_decode_run r Hv) as [Hout Hafter];
    [reflexivity|].
  cbv zeta in Hout, Hafter.
  change (ReadFileRecordResp.dev_addr r) with (uint8 a) in Hout, Hafter.
  change (ReadFileRecordResp.records r) with recs in Hout, Hafter.
  change (Msg.raw (msg r)) with rx in Hout, Hafter.
  assert (Hdrop : drop 3 rx
                  = flat_map record_response_bytes datas
                    ++ crc_bytes ([byte_of_Z a; x14; byte_of_Z data_len]
                                    ++ flat_map record_response_bytes datas)).
  { subst rx. unfold with_crc. by rewrite <- app_assoc. }
  assert (Hfields : record_fields (map record_size recs) (drop 3 rx)
                    = map (fun ws => (uint8 (1 + Z.of_nat (length ws) * 2),
                                      0x06, map uint16 ws)) datas).
  { rewrite Hdrop, Hsizes. apply record_fields_response. }
  assert (Hpass : first_mismatch
                    (ReadFileRecordResp_checks_spec (uint8 a) recs rx) = None).
  { unfold ReadFileRecordResp_checks_spec. rewrite Hfields.
    rewrite first_mismatch_records_pass.
    - assert (Hlen : Z.of_nat (length rx - 2) - 3 = data_len).
      { subst rx data_len. unfold with_crc, crc_bytes.
        rewrite !length_app, Hfl. simpl. lia. }
      rewrite Hlen. subst rx. unfold with_crc. cbn [app].
      unfold u8_at. cbn [lookup list_lookup from_option].
      rewrite !Z_of_byte_of_Z.
      change (Z_of_byte x14) with READ_FILE_RECORD.
      cbn [first_mismatch].
      rewrite (uint8_small data_len) by (subst data_len; lia).
      by rewrite !Z.eqb_refl.
    - apply Forall_reverse, Forall_fmap, Forall_forall.
      intros ws Hws. unfold compose. cbn [fst snd]. split; [done|].
      rewrite length_map. f_equal. apply uint8_small.
      assert (2 + 2 * length ws
              <= sum_list_with (fun ws => 2 + 2 * length ws) datas)%nat.
      { clear -Hws. induction Hws as [ws datas|ws ws' datas _ IH];
          cbn [sum_list_with]; lia. }
      lia. }
  rewrite Hout, Hpass. split; [done|].
  rewrite (Hafter Hpass). cbn [ReadFileRecordResp.records].
  rewrite Hfields. unfold with_fields. by rewrite zip_with_fmap_l.
Qed.

Lemma ReadFileRecordResp_decode_round_trip_witness :
  ReadFileRecordResp.records
    (after ReadFileRecordResp.decode
       (received
          (with_crc ([byte_of_Z 0x11; x14; byte_of_Z 4]
                       ++ flat_map record_response_bytes [[0x1234]]))
          (ReadFileRecordResp.make 253 0x11 example_records)))
  = [FileRecord.mk 4 1 [0x1234]].
Proof.
  destruct (ReadFileRecordResp_decode_round_trip 253 0x11 example_records
              [[0x1234]]) as [_ Hr];
    [by repeat constructor|simpl; lia|exact Hr].
Defined.
